(** * aiopmtiles.io : byte-range readers over five storage backends

    A shallow embedding of [src/aiopmtiles/io.py] and the properties
    of its selector, its range requests and its handle life cycle.

    Conventions of the embedding.
    - Python [int] is [Z]; [bytes] is [list Byte.byte]; [str] is [string].
    - An [await]ed call is an ordinary call: one handle is driven by one
      caller in program order, so the coroutines are run to completion
      one after the other.
    - Exceptions are values of [exn]; a computation that may raise returns
      [exn + A] together with the state it leaves behind (Python does not
      roll back the assignments made before a [raise]).
    - What lives outside the module (the disk, the HTTP server, the
      object store, the cloud bucket, the imported client libraries and
      the [settings] object) is a record [Env] of responses; the requests
      the module sends are appended to the [trace] of the [World]. *)

From Stdlib Require Import ZArith String Ascii List Lia Bool.
From Stdlib Require Import Decimal DecimalString DecimalZ DecimalPos.
From stdpp Require Import base gmap strings list.

Local Open Scope Z_scope.

(** ** Python's [str] primitives used by the module *)

Module PyStr.

Definition chr_eqb (a b : ascii) : bool := Ascii.eqb a b.

(** [c in s] *)
Fixpoint contains (c : ascii) (s : string) : bool :=
  match s with
  | EmptyString => false
  | String a s' => chr_eqb a c || contains c s'
  end.

(** [s.partition(c)]: the text before the first [c] and the text after
    it, or [None] when [c] does not occur ([s.find(c) < 0]). *)
Fixpoint partition (c : ascii) (s : string) : option (string * string) :=
  match s with
  | EmptyString => None
  | String a s' =>
      if chr_eqb a c then Some (EmptyString, s')
      else match partition c s' with
           | Some (pre, post) => Some (String a pre, post)
           | None => None
           end
  end.

(** [s.rpartition(c)]: split at the last [c]. *)
Fixpoint rpartition (c : ascii) (s : string) : option (string * string) :=
  match s with
  | EmptyString => None
  | String a s' =>
      match rpartition c s' with
      | Some (pre, post) => Some (String a pre, post)
      | None => if chr_eqb a c then Some (EmptyString, s') else None
      end
  end.

(** The longest prefix whose characters all fail [stop], and the rest. *)
Fixpoint span_until (stop : ascii -> bool) (s : string) : string * string :=
  match s with
  | EmptyString => (EmptyString, EmptyString)
  | String a s' =>
      if stop a then (EmptyString, s)
      else let '(pre, post) := span_until stop s' in (String a pre, post)
  end.

Fixpoint forallb (p : ascii -> bool) (s : string) : bool :=
  match s with
  | EmptyString => true
  | String a s' => p a && forallb p s'
  end.

Fixpoint filter (p : ascii -> bool) (s : string) : string :=
  match s with
  | EmptyString => EmptyString
  | String a s' => if p a then String a (filter p s') else filter p s'
  end.

Fixpoint map (f : ascii -> ascii) (s : string) : string :=
  match s with
  | EmptyString => EmptyString
  | String a s' => String (f a) (map f s')
  end.

(** [s.lstrip(chars)] *)
Fixpoint lstrip (drop : ascii -> bool) (s : string) : string :=
  match s with
  | EmptyString => EmptyString
  | String a s' => if drop a then lstrip drop s' else s
  end.

(** [s.rstrip(chars)] *)
Fixpoint rstrip (drop : ascii -> bool) (s : string) : string :=
  match s with
  | EmptyString => EmptyString
  | String a s' =>
      match rstrip drop s' with
      | EmptyString => if drop a then EmptyString else String a EmptyString
      | r => String a r
      end
  end.

(** [s.strip(chars)] removes the characters of [chars] from both ends. *)
Definition strip (drop : ascii -> bool) (s : string) : string :=
  rstrip drop (lstrip drop s).

Definition code (a : ascii) : nat := nat_of_ascii a.

Definition between (lo hi : nat) (a : ascii) : bool :=
  Nat.leb lo (code a) && Nat.leb (code a) hi.

Definition is_upper : ascii -> bool := between 65 90.
Definition is_lower : ascii -> bool := between 97 122.
Definition is_digit : ascii -> bool := between 48 57.
Definition is_alpha (a : ascii) : bool := is_upper a || is_lower a.

Definition lower_chr (a : ascii) : ascii :=
  if is_upper a then ascii_of_nat (code a + 32) else a.

(** [s.lower()] on ASCII text. *)
Definition lower : string -> string := map lower_chr.

(** [s in items] for a list or set of strings. *)
Definition mem (s : string) (items : list string) : bool :=
  existsb (String.eqb s) items.

(** Truthiness of a string: non-empty. *)
Definition truthy (s : string) : bool :=
  match s with EmptyString => false | String _ _ => true end.

(** [s.startswith(p)] *)
Fixpoint startswith (p s : string) : bool :=
  match p, s with
  | EmptyString, _ => true
  | String a p', String b s' => chr_eqb a b && startswith p' s'
  | String _ _, EmptyString => false
  end.


(** [p in s] for two strings: [p] occurs somewhere in [s]. *)
Fixpoint occurs (p s : string) : bool :=
  startswith p s
  || match s with
     | EmptyString => false
     | String _ s' => occurs p s'
     end.

(** [s[0]] and [s[-1]], where they exist. *)
Definition first_chr (s : string) : option ascii :=
  match s with
  | EmptyString => None
  | String a _ => Some a
  end.

Fixpoint last_chr (s : string) : option ascii :=
  match s with
  | EmptyString => None
  | String a EmptyString => Some a
  | String _ s' => last_chr s'
  end.

(** [str(n)] and the [{n}] field of an f-string, for an [int]. *)
Definition of_int (n : Z) : string := NilZero.string_of_int (Z.to_int n).

(** [int(s)] for a decimal numeral. *)
Definition to_int (s : string) : option Z :=
  option_map Z.of_int (NilZero.int_of_string s).

End PyStr.

(** ** Exceptions

    The exception classes the module and its libraries raise;
    [HTTPStatusError] is what [raise_for_status] raises, [BackendError]
    stands for a failure of an object-store or cloud-bucket request. *)

Inductive exn : Type :=
| ValueError (msg : string)
| AssertionError (msg : string)
| ImportError (msg : string)
| TypeError (msg : string)
| AttributeError (msg : string)
| RuntimeError (msg : string)
| OSError (msg : string)
| OverflowError (msg : string)
| MemoryError
| HTTPStatusError (status_code : Z)
| BackendError (msg : string).

(** ** [urllib.parse.urlparse]

    The module reads three components of the parsed location: [scheme],
    [netloc] and [path].  [urlparse] belongs to the Python standard
    library; the definition below follows CPython's [urlsplit] and
    [urlparse] on ASCII input: leading C0 controls and spaces are
    dropped, tabs and line breaks are removed, the scheme is the text
    before the first colon when it starts with a letter and consists of
    scheme characters, a leading [//] introduces the network location,
    and fragment, query and (for the schemes of [uses_params])
    parameters are cut off the path.  A network location with one
    bracket and not the other is rejected.  One with both brackets, or
    with a character outside ASCII, is passed to the checks of the
    interpreter ([_check_bracketed_host] or [_check_bracketed_netloc],
    which ask the [ipaddress] module, and [_checknetloc]); what they
    answer is the parameter [check_netloc]: [None] when they accept the
    network location, the [ValueError] they raise otherwise. *)

Module Url.

Record ParseResult : Type := {
  scheme : string;
  netloc : string;
  path : string;
  params : string;
  query : string;
  fragment : string
}.

(** A result without parameters, query and fragment. *)
Definition plain (scheme netloc path : string) : ParseResult :=
  {| scheme := scheme; netloc := netloc; path := path;
     params := EmptyString; query := EmptyString; fragment := EmptyString |}.

Definition c0_control_or_space (a : ascii) : bool :=
  Nat.leb (PyStr.code a) 32.

Definition unsafe_byte (a : ascii) : bool :=
  PyStr.mem (String a EmptyString)
    (String "009" EmptyString :: String "013" EmptyString
       :: String "010" EmptyString :: nil).

Definition scheme_char (a : ascii) : bool :=
  PyStr.is_alpha a || PyStr.is_digit a
  || PyStr.contains a "+-.".

Definition uses_params : list string :=
  (EmptyString :: "ftp" :: "hdl" :: "prospero" :: "http" :: "imap" :: "https"
      :: "shttp" :: "rtsp" :: "rtspu" :: "sip" :: "sips" :: "mms"
      :: "sftp" :: "tel" :: nil)%string.

(** The scheme and what follows the colon; no scheme leaves the text
    whole. *)
Definition split_scheme (url : string) : string * string :=
  match PyStr.partition ":" url with
  | Some (String a pre, post) =>
      if PyStr.is_alpha a && PyStr.forallb scheme_char (String a pre)
      then (PyStr.lower (String a pre), post)
      else (EmptyString, url)
  | _ => (EmptyString, url)
  end.

Definition netloc_end (a : ascii) : bool := PyStr.contains a "/?#".

(** [_splitnetloc(url, 2)] behind the test [url[:2] == '//']. *)
Definition split_netloc (url : string) : string * string :=
  match url with
  | String "/" (String "/" rest) => PyStr.span_until netloc_end rest
  | _ => (EmptyString, url)
  end.

Definition brackets_ok (nl : string) : bool :=
  Bool.eqb (PyStr.contains "[" nl) (PyStr.contains "]" nl).

(** [url.split(c, 1)] guarded by [c in url]. *)
Definition cut (c : ascii) (url : string) : string * string :=
  match PyStr.partition c url with
  | Some (pre, post) => (pre, post)
  | None => (url, EmptyString)
  end.

Definition splitparams (url : string) : string * string :=
  match PyStr.rpartition "/" url with
  | Some (dir, last) =>
      match PyStr.partition ";" last with
      | Some (name, ps) => (dir +:+ "/" +:+ name, ps)
      | None => (url, EmptyString)
      end
  | None => cut ";" url
  end.

Definition is_ascii (a : ascii) : bool := Nat.leb (PyStr.code a) 127.

(** The network locations the interpreter's checks are run on. *)
Definition needs_check (nl : string) : bool :=
  PyStr.contains "[" nl || negb (PyStr.forallb is_ascii nl).

Definition urlparse (check_netloc : string -> option exn) (location : string)
  : exn + ParseResult :=
  let url := PyStr.lstrip c0_control_or_space location in
  let url := PyStr.filter (fun a => negb (unsafe_byte a)) url in
  let '(sch, url) := split_scheme url in
  let '(nl, url) := split_netloc url in
  if negb (brackets_ok nl) then inl (ValueError "Invalid IPv6 URL")
  else
    match (if needs_check nl then check_netloc nl else None) with
    | Some e => inl e
    | None =>
        let '(url, frag) := cut "#" url in
        let '(url, qry) := cut "?" url in
        let '(url, prm) :=
          if PyStr.mem sch uses_params && PyStr.contains ";" url
          then splitparams url else (url, EmptyString) in
        inr {| scheme := sch; netloc := nl; path := url;
               params := prm; query := qry; fragment := frag |}
    end.

End Url.

(** ** The world outside the module *)

Definition rid : Type := nat.
Definition bytes : Type := list Byte.byte.

(** The objects the handles hold references to. *)
Inductive resource : Type :=
| File (content : bytes) (pos : Z)   (* [aiofiles.open(path, "rb")] *)
| HttpClient                         (* [httpx.AsyncClient()] *)
| Session                            (* an aioboto3 session *)
| S3Resource (session : rid)         (* [session.resource("s3")], entered *)
| GcsClient.                         (* [GcpStorage()], entered *)

Record cell : Type := { obj : resource; closed : bool }.

Definition close_cell (c : cell) : cell := {| obj := obj c; closed := true |}.

Record Response : Type := { status_code : Z; content : bytes }.

(** What the module asks of the outside, in the order it asks. *)
Inductive event : Type :=
| FileOpen (path : string)
| FileSeek (f : rid) (offset : Z)
| FileRead (f : rid) (size : Z)
| HttpGet (client : rid) (url : string) (headers : list (string * string))
| S3Connect (session : rid)
| S3Object (res : rid) (bucket key : string)
| S3Get (res : rid) (bucket key : string) (range : string)
        (request_payer : option bool)
| GcsConnect
| GcsDownload (client : rid) (bucket name : string)
              (headers : list (string * string))
| Exit (r : rid).

Record World : Type := { heap : gmap rid cell; trace : list event }.

(** The imported modules and the answers of the outside.  Every answer
    may depend on everything that happened before ([list event]), so
    the same request can fail once and succeed later.
    [check_netloc] is the interpreter's check of a network location
    (see [Url.urlparse]).  [max_offset] is the largest offset the file
    system accepts in a seek and [max_read] the largest size a read can
    allocate its result for.
    [aioboto3] and [GcpStorage] are [false] when the guarded import at
    the top of the module fell back to [None].
    [AWS_S3_ASYNC_CLIENT] and [IMAGE_BUCKET_NAME] are the two attributes
    read from [src.utilities.settings], which is not part of this file. *)
Record Env : Type := {
  aioboto3 : bool;
  GcpStorage : bool;
  AWS_S3_ASYNC_CLIENT : rid;
  IMAGE_BUCKET_NAME : string;
  check_netloc : string -> option exn;
  max_offset : Z;
  max_read : Z;
  os_open : list event -> string -> exn + bytes;
  http_send : list event -> string -> list (string * string) -> exn + Response;
  s3_connect : list event -> rid -> option exn;
  s3_object : list event -> string -> string -> option exn;
  s3_get_object :
    list event -> string -> string -> string -> option bool -> exn + bytes;
  gcs_connect : list event -> option exn;
  gcs_download :
    list event -> string -> string -> list (string * string) -> exn + bytes;
  on_exit : list event -> rid -> option exn
}.

(** ** The handle objects *)

Inductive cls : Type :=
| LocalFileSystem | HttpFileSystem | S3FileSystem | AtlasS3FileSystem
| GcsFileSystem.

(** [_obj] is an object reference in the S3 classes and a name in the
    GCS class. *)
Inductive objref : Type :=
| ObjectRef (res : rid) (bucket key : string)
| ObjectName (name : string).

(** An instance: its class and its attributes.  An attribute declared
    [field(init=False)] without a default does not exist until it is
    assigned; it is [None] here until then. *)
Record FileSystem : Type := {
  class_ : cls;
  filepath : string;
  ctx : list rid;             (* the exit stack, most recent first *)
  request_payer : bool;
  file : option rid;
  client : option rid;
  _session : option rid;
  _resource : option rid;
  _obj : option objref;
  _client : option rid;
  _bucket : option string
}.

Definition new_instance (c : cls) (path : string) (payer : bool) : FileSystem :=
  {| class_ := c; filepath := path; ctx := nil; request_payer := payer;
     file := None; client := None; _session := None; _resource := None;
     _obj := None; _client := None; _bucket := None |}.

Definition set_ctx (v : list rid) (h : FileSystem) : FileSystem :=
  {| class_ := class_ h; filepath := filepath h; ctx := v;
     request_payer := request_payer h; file := file h; client := client h;
     _session := _session h; _resource := _resource h; _obj := _obj h;
     _client := _client h; _bucket := _bucket h |}.

Definition set_file (v : rid) (h : FileSystem) : FileSystem :=
  {| class_ := class_ h; filepath := filepath h; ctx := ctx h;
     request_payer := request_payer h; file := Some v; client := client h;
     _session := _session h; _resource := _resource h; _obj := _obj h;
     _client := _client h; _bucket := _bucket h |}.

Definition set_client (v : rid) (h : FileSystem) : FileSystem :=
  {| class_ := class_ h; filepath := filepath h; ctx := ctx h;
     request_payer := request_payer h; file := file h; client := Some v;
     _session := _session h; _resource := _resource h; _obj := _obj h;
     _client := _client h; _bucket := _bucket h |}.

Definition set__session (v : rid) (h : FileSystem) : FileSystem :=
  {| class_ := class_ h; filepath := filepath h; ctx := ctx h;
     request_payer := request_payer h; file := file h; client := client h;
     _session := Some v; _resource := _resource h; _obj := _obj h;
     _client := _client h; _bucket := _bucket h |}.

Definition set__resource (v : rid) (h : FileSystem) : FileSystem :=
  {| class_ := class_ h; filepath := filepath h; ctx := ctx h;
     request_payer := request_payer h; file := file h; client := client h;
     _session := _session h; _resource := Some v; _obj := _obj h;
     _client := _client h; _bucket := _bucket h |}.

Definition set__obj (v : objref) (h : FileSystem) : FileSystem :=
  {| class_ := class_ h; filepath := filepath h; ctx := ctx h;
     request_payer := request_payer h; file := file h; client := client h;
     _session := _session h; _resource := _resource h; _obj := Some v;
     _client := _client h; _bucket := _bucket h |}.

Definition set__client (v : rid) (h : FileSystem) : FileSystem :=
  {| class_ := class_ h; filepath := filepath h; ctx := ctx h;
     request_payer := request_payer h; file := file h; client := client h;
     _session := _session h; _resource := _resource h; _obj := _obj h;
     _client := Some v; _bucket := _bucket h |}.

Definition set__bucket (v : string) (h : FileSystem) : FileSystem :=
  {| class_ := class_ h; filepath := filepath h; ctx := ctx h;
     request_payer := request_payer h; file := file h; client := client h;
     _session := _session h; _resource := _resource h; _obj := _obj h;
     _client := _client h; _bucket := Some v |}.

(** ** Computations: state and exceptions

    A method runs on the instance [self] and the world; it returns a
    value or raises, and leaves both behind either way. *)

Definition St : Type := FileSystem * World.
Definition M (A : Type) : Type := St -> (exn + A) * St.

Definition ret {A} (a : A) : M A := fun s => (inr a, s).
Definition raise {A} (e : exn) : M A := fun s => (inl e, s).
Definition bind {A B} (m : M A) (k : A -> M B) : M B :=
  fun s => match m s with
           | (inr a, s') => k a s'
           | (inl e, s') => (inl e, s')
           end.

Declare Scope py_scope.
Delimit Scope py_scope with py.
Notation "x <- m ;; k" := (bind m (fun x => k))
  (at level 100, m at next level, right associativity) : py_scope.
Notation "m ;;; k" := (bind m (fun _ => k))
  (at level 100, right associativity) : py_scope.

Definition self : M FileSystem := fun s => (inr (fst s), s).
Definition update_self (f : FileSystem -> FileSystem) : M unit :=
  fun s => (inr tt, (f (fst s), snd s)).
Definition world : M World := fun s => (inr (snd s), s).
Definition put_world (w : World) : M unit := fun s => (inr tt, (fst s, w)).

(** [self.name], an [AttributeError] when the attribute was never set. *)
Definition getattr {A} (name : string) (proj : FileSystem -> option A) : M A :=
  fun s => match proj (fst s) with
           | Some v => (inr v, s)
           | None => (inl (AttributeError name), s)
           end.

Definition lift {A} (r : exn + A) : M A :=
  match r with inl e => raise e | inr a => ret a end.

Definition emit (ev : event) : M unit :=
  fun s => (inr tt, (fst s, {| heap := heap (snd s);
                               trace := trace (snd s) ++ ev :: nil |})).

(** A new object gets an identity no live or dead object has. *)
Definition alloc (r : resource) : M rid :=
  fun s => let w := snd s in
           let i := fresh (dom (heap w)) in
           (inr i,
            (fst s,
             {| heap := <[i := {| obj := r; closed := false |}]> (heap w);
                trace := trace w |})).

Definition lookup_cell (i : rid) : M cell :=
  fun s => match heap (snd s) !! i with
           | Some c => (inr c, s)
           | None => (inl (RuntimeError "dangling reference"), s)
           end.

Definition store (i : rid) (c : cell) : M unit :=
  fun s => (inr tt, (fst s, {| heap := <[i := c]> (heap (snd s));
                               trace := trace (snd s) |})).

Local Open Scope py_scope.

(** The ranges of the C types [off_t] and [ssize_t], 64 bits wide. *)
Definition off_t_max : Z := 9223372036854775807.
Definition off_t_min : Z := -9223372036854775808.
Definition ssize_t_max : Z := 9223372036854775807.
Definition ssize_t_min : Z := -9223372036854775808.

Section Methods.

Variable E : Env.

(** *** The client libraries, as far as the module uses them *)

(** A closed object refuses to be used: a closed file raises
    [ValueError], a closed [httpx] client and a closed cloud-storage
    client raise [RuntimeError]. *)
Definition live (i : rid) (refusal : exn) : M cell :=
  c <- lookup_cell i ;;
  if closed c then raise refusal else ret c.

(** [aiofiles.open(path, "rb").__aenter__()] *)
Definition aiofiles_open (path : string) : M rid :=
  w <- world ;;
  emit (FileOpen path) ;;;
  data <- lift (os_open E (trace w) path) ;;
  alloc (File data 0).

(** [await f.seek(offset)], from the start of the file.  A closed
    file refuses; an offset that does not fit the C type [off_t] is a
    [ValueError]; a negative offset, or one beyond what the file system
    accepts, is the [OSError] of the failed system call. *)
Definition file_seek (f : rid) (offset : Z) : M unit :=
  c <- live f (ValueError "seek of closed file") ;;
  emit (FileSeek f offset) ;;;
  match obj c with
  | File data _ =>
      if (offset <? off_t_min) || (off_t_max <? offset)
      then raise (ValueError "cannot fit 'int' into an offset-sized integer")
      else if (offset <? 0) || (max_offset E <? offset)
      then raise (OSError "[Errno 22] Invalid argument")
      else store f {| obj := File data offset; closed := false |}
  | _ => raise (AttributeError "seek")
  end.

(** [await f.read(size)]: at most [size] bytes from the position on,
    everything that is left when [size] is [-1].  A size that does not
    fit the C type [ssize_t] is an [OverflowError] and one below [-1] a
    [ValueError], both raised before the file is looked at; a closed
    file refuses; a size the result cannot be allocated for is a
    [MemoryError]. *)
Definition file_read (f : rid) (size : Z) : M bytes :=
  if (size <? ssize_t_min) || (ssize_t_max <? size)
  then raise (OverflowError "cannot fit 'int' into an index-sized integer")
  else if size <? -1
  then raise (ValueError "read length must be non-negative or -1")
  else
    c <- live f (ValueError "read of closed file") ;;
    emit (FileRead f size) ;;;
    match obj c with
    | File data pos =>
        if max_read E <? size then raise MemoryError
        else
          let rest := drop (Z.to_nat pos) data in
          let out := if size =? -1 then rest else take (Z.to_nat size) rest in
          store f {| obj := File data (pos + Z.of_nat (length out));
                     closed := false |} ;;;
          ret out
    | _ => raise (AttributeError "read")
    end.

(** [httpx.AsyncClient().__aenter__()] *)
Definition httpx_AsyncClient : M rid := alloc HttpClient.

(** [await client.get(url, headers=headers)] *)
Definition httpx_get (c : rid) (url : string) (headers : list (string * string))
  : M Response :=
  live c (RuntimeError
            "Cannot send a request, as the client has been closed.") ;;;
  w <- world ;;
  emit (HttpGet c url headers) ;;;
  lift (http_send E (trace w) url headers).

Definition is_success (resp : Response) : bool :=
  (200 <=? status_code resp) && (status_code resp <=? 299).

(** [resp.raise_for_status()] *)
Definition raise_for_status (resp : Response) : M unit :=
  if is_success resp then ret tt
  else raise (HTTPStatusError (status_code resp)).

(** [aioboto3.Session()] *)
Definition aioboto3_Session : M rid := alloc Session.

(** [session.resource("s3").__aenter__()] *)
Definition session_resource (session : rid) : M rid :=
  c <- lookup_cell session ;;
  match obj c with
  | Session =>
      w <- world ;;
      emit (S3Connect session) ;;;
      match s3_connect E (trace w) session with
      | Some e => raise e
      | None => alloc (S3Resource session)
      end
  | _ => raise (AttributeError "resource")
  end.

(** [await resource.Object(bucket, key)] *)
Definition resource_Object (res : rid) (bucket key : string) : M objref :=
  w <- world ;;
  emit (S3Object res bucket key) ;;;
  match s3_object E (trace w) bucket key with
  | Some e => raise e
  | None => ret (ObjectRef res bucket key)
  end.

(** [req = await obj.get(Range=range, **kwargs)] followed by
    [await req["Body"].read()].  The object reference sends the request
    whether or not the resource context it came from has been exited:
    what comes back is the answer of the store client. *)
Definition object_get (o : objref) (range : string) (payer : option bool)
  : M bytes :=
  match o with
  | ObjectRef res bucket key =>
      w <- world ;;
      emit (S3Get res bucket key range payer) ;;;
      lift (s3_get_object E (trace w) bucket key range payer)
  | ObjectName _ => raise (AttributeError "get")
  end.

(** [GcpStorage().__aenter__()]; calling [None] is a [TypeError]. *)
Definition GcpStorage_new : M rid :=
  if GcpStorage E then
    w <- world ;;
    emit GcsConnect ;;;
    match gcs_connect E (trace w) with
    | Some e => raise e
    | None => alloc GcsClient
    end
  else raise (TypeError "'NoneType' object is not callable").

(** [await client.download(bucket, name, headers=headers)] *)
Definition storage_download (c : rid) (bucket name : string)
           (headers : list (string * string)) : M bytes :=
  live c (RuntimeError "Session is closed") ;;;
  w <- world ;;
  emit (GcsDownload c bucket name headers) ;;;
  lift (gcs_download E (trace w) bucket name headers).

(** The [__aexit__] of an entered object: the object is closed, and
    the library may still raise while closing it. *)
Definition resource_aexit (r : rid) (w : World) : option exn * World :=
  let hp := match heap w !! r with
            | Some c => <[r := close_cell c]> (heap w)
            | None => heap w
            end in
  (on_exit E (trace w) r, {| heap := hp; trace := trace w ++ Exit r :: nil |}).

(** *** [contextlib.AsyncExitStack] *)

(** [await stack.enter_async_context(cm)]: enter [cm]; once that has
    succeeded, register its exit. *)
Definition enter_async_context (aenter : M rid) : M rid :=
  r <- aenter ;;
  update_self (fun h => set_ctx (r :: ctx h) h) ;;;
  ret r.

(** The unwinding loop of [aclose]: every registered exit is called,
    last registered first; an exception raised by one of them does not
    stop the loop, and the last one raised is what [aclose] raises. *)
Fixpoint unwind (callbacks : list rid) (pending : option exn) (w : World)
  : option exn * World :=
  match callbacks with
  | nil => (pending, w)
  | r :: rest =>
      let '(res, w') := resource_aexit r w in
      unwind rest (match res with Some e => Some e | None => pending end) w'
  end.

(** [await stack.aclose()] *)
Definition aclose : M unit :=
  fun s =>
    let '(pending, w') := unwind (ctx (fst s)) None (snd s) in
    (match pending with Some e => inl e | None => inr tt end,
     (set_ctx nil (fst s), w')).

End Methods.

(** ** The classes of [io.py] *)

Definition kwargs : Type := gmap string bool.

(** The [Range] value built by the three remote backends,
    [f"bytes={offset}-{offset + length}"]. *)
Definition range_value (offset length : Z) : string :=
  "bytes=" +:+ PyStr.of_int offset +:+ "-" +:+ PyStr.of_int (offset + length).

Definition slash (a : ascii) : bool := PyStr.chr_eqb a "/".

Section Classes.

Variable E : Env.

(** [FileSystem.__aexit__] *)
Definition FileSystem_aexit : M unit := aclose E.

(** *** LocalFileSystem *)

(** The generated [__init__(self, filepath)]. *)
Definition LocalFileSystem_new (path : string) (kw : kwargs)
  : exn + FileSystem :=
  if decide (kw = ∅) then inr (new_instance LocalFileSystem path false)
  else inl (TypeError "__init__() got an unexpected keyword argument").

Definition LocalFileSystem_get (offset length : Z) : M bytes :=
  f <- getattr "file" file ;;
  file_seek E f offset ;;;
  f <- getattr "file" file ;;
  file_read E f (length + 1).

Definition LocalFileSystem_aenter : M unit :=
  h <- self ;;
  f <- enter_async_context (aiofiles_open E (filepath h)) ;;
  update_self (set_file f).

(** *** HttpFileSystem *)

Definition HttpFileSystem_new (path : string) (kw : kwargs)
  : exn + FileSystem :=
  if decide (kw = ∅) then inr (new_instance HttpFileSystem path false)
  else inl (TypeError "__init__() got an unexpected keyword argument").

Definition HttpFileSystem_get (offset length : Z) : M bytes :=
  let range_header := ("Range"%string, range_value offset length) :: nil in
  c <- getattr "client" client ;;
  h <- self ;;
  resp <- httpx_get E c (filepath h) range_header ;;
  raise_for_status resp ;;;
  ret (content resp).

Definition HttpFileSystem_aenter : M unit :=
  c <- enter_async_context httpx_AsyncClient ;;
  update_self (set_client c).

(** *** S3FileSystem *)

(** [__post_init__]: the [assert] on the imported module. *)
Definition S3FileSystem_post_init (h : FileSystem) : exn + FileSystem :=
  if aioboto3 E then inr h
  else inl (AssertionError "'aioboto3' must be installed to use S3 FileSystem").

(** The generated [__init__(self, filepath, request_payer=False)],
    which ends by calling [__post_init__]. *)
Definition S3_init (c : cls) (path : string) (kw : kwargs) : exn + FileSystem :=
  if decide (delete "request_payer"%string kw = ∅)
  then S3FileSystem_post_init
         (new_instance c path (default false (kw !! "request_payer"%string)))
  else inl (TypeError "__init__() got an unexpected keyword argument").

Definition S3FileSystem_new : string -> kwargs -> exn + FileSystem :=
  S3_init S3FileSystem.

Definition S3FileSystem_get (offset length : Z) : M bytes :=
  h <- self ;;
  let kw := if request_payer h then Some (request_payer h) else None in
  o <- getattr "_obj" _obj ;;
  object_get E o (range_value offset length) kw.

Definition S3FileSystem_aenter : M unit :=
  h <- self ;;
  parsed <- lift (Url.urlparse (check_netloc E) (filepath h)) ;;
  if negb (aioboto3 E)
  then raise (ImportError "aioboto3 is required for S3FileSystem")
  else
    s <- aioboto3_Session ;;
    update_self (set__session s) ;;;
    s <- getattr "_session" _session ;;
    r <- enter_async_context (session_resource E s) ;;
    update_self (set__resource r) ;;;
    r <- getattr "_resource" _resource ;;
    o <- resource_Object E r (Url.netloc parsed)
           (PyStr.strip slash (Url.path parsed)) ;;
    update_self (set__obj o).

(** *** AtlasS3FileSystem: a subclass of S3FileSystem that overrides
    [__aenter__] only. *)

Definition AtlasS3FileSystem_new : string -> kwargs -> exn + FileSystem :=
  S3_init AtlasS3FileSystem.

Definition AtlasS3FileSystem_aenter : M unit :=
  h <- self ;;
  parsed <- lift (Url.urlparse (check_netloc E) (filepath h)) ;;
  update_self (set__session (AWS_S3_ASYNC_CLIENT E)) ;;;
  s <- getattr "_session" _session ;;
  r <- enter_async_context (session_resource E s) ;;
  update_self (set__resource r) ;;;
  r <- getattr "_resource" _resource ;;
  o <- resource_Object E r (IMAGE_BUCKET_NAME E) (Url.path parsed) ;;
  update_self (set__obj o).

(** *** GcsFileSystem *)

Definition GcsFileSystem_post_init (h : FileSystem) : exn + FileSystem :=
  if GcpStorage E then inr h
  else inl (AssertionError
              "'gcloud-aio-storage' must be installed to use GCS FileSystem").

Definition GcsFileSystem_new (path : string) (kw : kwargs) : exn + FileSystem :=
  if decide (kw = ∅)
  then GcsFileSystem_post_init (new_instance GcsFileSystem path false)
  else inl (TypeError "__init__() got an unexpected keyword argument").

Definition GcsFileSystem_get (offset length : Z) : M bytes :=
  let headers := ("Range"%string, range_value offset length) :: nil in
  c <- getattr "_client" _client ;;
  b <- getattr "_bucket" _bucket ;;
  o <- getattr "_obj" _obj ;;
  match o with
  | ObjectName name => storage_download E c b name headers
  | ObjectRef _ _ _ => raise (TypeError "object name must be str")
  end.

Definition GcsFileSystem_aenter : M unit :=
  h <- self ;;
  parsed_path <- lift (Url.urlparse (check_netloc E) (filepath h)) ;;
  c <- enter_async_context (GcpStorage_new E) ;;
  update_self (set__client c) ;;;
  update_self (set__bucket (Url.netloc parsed_path)) ;;;
  update_self
    (set__obj (ObjectName (PyStr.strip slash (Url.path parsed_path)))).

(** *** Method resolution on the class of [self] *)

Definition get (offset length : Z) : M bytes :=
  h <- self ;;
  match class_ h with
  | LocalFileSystem => LocalFileSystem_get offset length
  | HttpFileSystem => HttpFileSystem_get offset length
  | S3FileSystem | AtlasS3FileSystem => S3FileSystem_get offset length
  | GcsFileSystem => GcsFileSystem_get offset length
  end.

Definition aenter : M unit :=
  h <- self ;;
  match class_ h with
  | LocalFileSystem => LocalFileSystem_aenter
  | HttpFileSystem => HttpFileSystem_aenter
  | S3FileSystem => S3FileSystem_aenter
  | AtlasS3FileSystem => AtlasS3FileSystem_aenter
  | GcsFileSystem => GcsFileSystem_aenter
  end.

Definition aexit : M unit := FileSystem_aexit.

(** *** FileSystem.create_from_filepath *)

Definition create_from_filepath (path : string) (kw : kwargs)
  : exn + FileSystem :=
  match Url.urlparse (check_netloc E) path with
  | inl e => inl e
  | inr parsed =>
      let scheme := Url.scheme parsed in
      if PyStr.mem scheme ("http" :: "https" :: nil)%string
      then HttpFileSystem_new path kw
      else if String.eqb scheme "s3" then S3FileSystem_new path kw
      else if String.eqb scheme "atlas" then AtlasS3FileSystem_new path kw
      else if String.eqb scheme "gs" then GcsFileSystem_new path kw
      else if String.eqb scheme "file" then LocalFileSystem_new path kw
      else if PyStr.truthy scheme
      then inl (ValueError ("'" +:+ scheme +:+ "' is not supported"))
      else LocalFileSystem_new path kw
  end.

End Classes.

(** * What the specification says, in the terms of the model *)

(** ** The selector *)

(** The table of the specification: scheme, backend. *)
Definition scheme_table : list (string * cls) :=
  (("http", HttpFileSystem) :: ("https", HttpFileSystem)
     :: ("s3", S3FileSystem) :: ("atlas", AtlasS3FileSystem)
     :: ("gs", GcsFileSystem) :: ("file", LocalFileSystem)
     :: (EmptyString, LocalFileSystem) :: nil)%string.

Fixpoint assoc {V} (k : string) (table : list (string * V)) : option V :=
  match table with
  | nil => None
  | (k', v) :: rest => if String.eqb k k' then Some v else assoc k rest
  end.

Definition backend_of_scheme (scheme : string) : option cls :=
  assoc scheme scheme_table.

(** Calling class [c]. *)
Definition instantiate (E : Env) (c : cls)
  : string -> kwargs -> exn + FileSystem :=
  match c with
  | LocalFileSystem => LocalFileSystem_new
  | HttpFileSystem => HttpFileSystem_new
  | S3FileSystem => S3FileSystem_new E
  | AtlasS3FileSystem => AtlasS3FileSystem_new E
  | GcsFileSystem => GcsFileSystem_new E
  end.

(** The client library class [c] needs was imported. *)
Definition importable (E : Env) (c : cls) : bool :=
  match c with
  | S3FileSystem | AtlasS3FileSystem => aioboto3 E
  | GcsFileSystem => GcpStorage E
  | LocalFileSystem | HttpFileSystem => true
  end.

(** ** Range requests *)





(** ** Reading a local file *)

(** The bytes of [data] at the positions [first], ..., [last]. *)
Definition bytes_between (data : bytes) (first last : Z) : bytes :=
  omap (fun p : nat => data !! p)
       (seq (Z.to_nat first) (Z.to_nat (last - first + 1))).

(** A read of [length + 1] bytes at [offset] stays within what the C
    types and the platform take. *)
Definition in_limits (E : Env) (offset length : Z) : bool :=
  (offset <=? off_t_max) && (offset <=? max_offset E)
  && (length + 1 <=? ssize_t_max) && (length + 1 <=? max_read E).

(** ** Object keys *)

(** A path without its leading separator, otherwise unchanged. *)
Definition strip_leading_separator (p : string) : string :=
  match p with
  | String "/" rest => rest
  | _ => p
  end.

(** ** The life cycle of a handle *)

(** What a caller does with a handle; an exception raised by one
    operation is caught by the caller, who goes on with the next. *)
Inductive op : Type :=
| Open
| Get (offset length : Z)
| Close.

Definition perform (E : Env) (o : op) : M unit :=
  match o with
  | Open => aenter E
  | Get offset length => (_ <- get E offset length ;; ret tt)%py
  | Close => aexit E
  end.

Definition after (E : Env) (ops : list op) (s : St) : St :=
  fold_left (fun s o => snd (perform E o s)) ops s.

(** Objects that are entered as contexts and have to be exited; a
    session is a plain object. *)
Definition entered (r : resource) : bool :=
  match r with
  | Session => false
  | _ => true
  end.

(** The objects the attributes of a handle refer to and its methods
    send requests through. *)
Definition clients (h : FileSystem) : list rid :=
  option_list (file h) ++ option_list (client h) ++ option_list (_client h)
  ++ match _obj h with
     | Some (ObjectRef res _ _) => res :: nil
     | _ => nil
     end.

(** ** What a handle owns

    [owns old s]: in state [s], a handle created when the objects of
    [old] existed has left those objects as they were; the exits it has
    registered, and the objects its attributes send requests through,
    are objects created since; and every object entered since is closed
    or still has its exit registered. *)
Record owns (old : gmap rid cell) (s : St) : Prop := {
  owns_frame : forall r c, old !! r = Some c -> heap (snd s) !! r = Some c;
  owns_ctx : forall r, r ∈ ctx (fst s) -> old !! r = None;
  owns_tracked : forall r c,
      heap (snd s) !! r = Some c -> old !! r = None ->
      entered (obj c) = true ->
      closed c = true \/ r ∈ ctx (fst s);
  owns_clients : forall r,
      r ∈ clients (fst s) ->
      old !! r = None
      /\ exists c, heap (snd s) !! r = Some c /\ entered (obj c) = true
}.


(** [wp m Q s]: run from [s], method [m] ends, by returning or by
    raising, with an outcome and a state that satisfy [Q]. *)
Definition wp {A} (m : M A) (Q : exn + A -> St -> Prop) (s : St) : Prop :=
  Q (fst (m s)) (snd (m s)).

(** [m] keeps what the handle owns and assigns no attribute. *)
Definition keeps (old : gmap rid cell) {A} (m : M A) : Prop :=
  forall s, owns old s -> wp m (fun _ s' => owns old s' /\ fst s' = fst s) s.

(** An object created since the handle was, still in the heap and of a
    kind that is entered. *)
Definition acquired (old : gmap rid cell) (r : rid) (s : St) : Prop :=
  old !! r = None
  /\ exists c, heap (snd s) !! r = Some c /\ entered (obj c) = true.

(** Entered through the exit stack, [m] hands out an object the handle
    then owns. *)
Definition enters (old : gmap rid cell) (m : M rid) : Prop :=
  forall s, owns old s ->
  wp (enter_async_context m)
     (fun res s' => owns old s' /\ clients (fst s') = clients (fst s)
                    /\ forall r, res = inr r -> acquired old r s') s.

(** ** What a request leaves as it was *)

(** A cell without the one thing a read moves, the position in a file. *)
Definition settled (c : cell) : cell :=
  match obj c with
  | File data _ => {| obj := File data 0; closed := closed c |}
  | _ => c
  end.

(** The same objects, each of the same kind, with the same contents and
    as open or closed as before. *)
Definition same_objects (hp hp' : gmap rid cell) : Prop :=
  forall r, settled <$> hp' !! r = settled <$> hp !! r.



(** The events a read consists of: positioning, reading, requesting. *)
Definition is_request (ev : event) : bool :=
  match ev with
  | FileSeek _ _ | FileRead _ _ | HttpGet _ _ _ | S3Get _ _ _ _ _
  | GcsDownload _ _ _ _ => true
  | _ => false
  end.

(** ** A sample world *)

Definition sample_data : bytes :=
  List.map (fun i => default Byte.x00 (Byte.of_nat i)) (seq 0 100).

(** One file of 100 bytes on the disk, on a file system that takes
    offsets up to 16 TiB less a block and with memory for reads of up
    to 4 GiB; a server that answers 404, object stores that answer with
    no bytes, and an interpreter that accepts [::1] as the only
    bracketed host. *)
Definition sample_env (libraries : bool) : Env :=
  {| aioboto3 := libraries;
     GcpStorage := libraries;
     AWS_S3_ASYNC_CLIENT := 0%nat;
     IMAGE_BUCKET_NAME := "images";
     check_netloc := fun nl =>
       if String.eqb nl "[::1]" then None
       else Some (ValueError "does not appear to be an IPv4 or IPv6 address");
     max_offset := 17592186040320;
     max_read := 4294967296;
     os_open := fun _ p =>
       if String.eqb p "/data/a.pmtiles" then inr sample_data
       else inl (OSError "No such file or directory");
     http_send := fun _ _ _ => inr {| status_code := 404; content := nil |};
     s3_connect := fun _ _ => None;
     s3_object := fun _ _ _ => None;
     s3_get_object := fun _ _ _ _ _ => inr nil;
     gcs_connect := fun _ => None;
     gcs_download := fun _ _ _ _ => inr nil;
     on_exit := fun _ _ => None |}.

(** The shared session of [settings] exists before any handle does. *)
Definition sample_world : World :=
  {| heap := {[ 0%nat := {| obj := Session; closed := false |} ]};
     trace := nil |}.

(** * Properties *)

(** ** [urlparse] on sample locations *)

Example urlparse_s3 (check : string -> option exn) :
  Url.urlparse check "s3://bucket/key.ext"
  = inr (Url.plain "s3" "bucket" "/key.ext").
Proof. reflexivity. Qed.

Example urlparse_plain_path (check : string -> option exn) :
  Url.urlparse check "/data/tiles.pmtiles"
  = inr (Url.plain EmptyString EmptyString "/data/tiles.pmtiles").
Proof. reflexivity. Qed.

Example urlparse_upper_http (check : string -> option exn) :
  Url.urlparse check "HTTP://Host:80/a;p?q=1#f"
  = inr {| Url.scheme := "http"; Url.netloc := "Host:80"; Url.path := "/a";
           Url.params := "p"; Url.query := "q=1"; Url.fragment := "f" |}.
Proof. reflexivity. Qed.

Example urlparse_open_bracket (check : string -> option exn) :
  Url.urlparse check "http://[::1/a" = inl (ValueError "Invalid IPv6 URL").
Proof. reflexivity. Qed.

Example urlparse_bracketed_host (check : string -> option exn) :
  Url.urlparse check "s3://[bucket]/key"
  = match check "[bucket]" with
    | Some e => inl e
    | None => inr (Url.plain "s3" "[bucket]" "/key")
    end.
Proof. vm_compute. now destruct (check _). Qed.

(** ** Strings *)

Lemma chr_eqb_refl (a : ascii) : PyStr.chr_eqb a a = true.
Proof. apply Ascii.eqb_refl. Qed.

Lemma startswith_app (p rest : string) : PyStr.startswith p (p +:+ rest) = true.
Proof.
  induction p as [|a p IH]; simpl; [reflexivity|].
  now rewrite chr_eqb_refl, IH.
Qed.

Lemma occurs_startswith (p s : string) :
  PyStr.startswith p s = true -> PyStr.occurs p s = true.
Proof. destruct s; simpl; intros ->; reflexivity. Qed.

Lemma occurs_app (pre p post : string) :
  PyStr.occurs p (pre +:+ p +:+ post) = true.
Proof.
  induction pre as [|a pre IH].
  - apply occurs_startswith. exact (startswith_app p post).
  - change (PyStr.occurs p (String a (pre +:+ p +:+ post)) = true).
    cbn [PyStr.occurs]. rewrite IH. apply orb_true_r.
Qed.

Lemma truthy_nonempty (s : string) : PyStr.truthy s = true <-> s <> EmptyString.
Proof. destruct s; simpl; split; congruence. Qed.

Lemma instantiate_class E c path kw h :
  instantiate E c path kw = inr h -> class_ h = c /\ filepath h = path /\ ctx h = nil.
Proof.
  destruct c; simpl;
    unfold LocalFileSystem_new, HttpFileSystem_new, S3FileSystem_new,
      AtlasS3FileSystem_new, GcsFileSystem_new, S3_init,
      S3FileSystem_post_init, GcsFileSystem_post_init;
    repeat case_decide; try discriminate;
    try (destruct (aioboto3 E)); try (destruct (GcpStorage E));
    intros [= <-]; auto.
Qed.

Lemma instantiate_total E c path :
  importable E c = true -> exists h, instantiate E c path ∅ = inr h.
Proof.
  destruct c; simpl; intros Hdep;
    unfold LocalFileSystem_new, HttpFileSystem_new, S3FileSystem_new,
      AtlasS3FileSystem_new, GcsFileSystem_new, S3_init,
      S3FileSystem_post_init, GcsFileSystem_post_init;
    rewrite ?Hdep; repeat case_decide; try congruence; eauto;
    exfalso; match goal with H : _ <> _ |- _ => apply H; apply delete_empty end.
Qed.

Lemma create_from_filepath_table E path kw parsed :
  Url.urlparse (check_netloc E) path = inr parsed ->
  create_from_filepath E path kw
  = match backend_of_scheme (Url.scheme parsed) with
    | Some c => instantiate E c path kw
    | None =>
        inl (ValueError ("'" +:+ Url.scheme parsed +:+ "' is not supported"))
    end.
Proof.
  intros Hp. unfold create_from_filepath. rewrite Hp.
  unfold backend_of_scheme, scheme_table, PyStr.mem. cbn [assoc existsb].
  generalize (Url.scheme parsed) as s. intros s.
  repeat match goal with
         | |- context [String.eqb s ?lit] =>
             destruct (String.eqb_spec s lit) as [->|?];
             [reflexivity|]; cbn [orb]
         end.
  assert (PyStr.truthy s = true) as -> by now apply truthy_nonempty.
  reflexivity.
Qed.

(** C1 (as the code has it). A location [urlparse] rejects makes the
    selector raise that error.  For every location that parses, the
    selector builds the backend the scheme table names ([http]/[https]:
    HTTP; [s3]: generic object store; [atlas]: specialised object
    store; [gs]: cloud bucket; [file] or no scheme: local), by calling
    that class with the location and the caller's options; the handle it
    returns is of that class and carries the location, and it does
    return one when the class's client library is imported and no
    option is passed.  For any other scheme, which is then non-empty, it
    raises a [ValueError] whose message contains the scheme. *)
Theorem create_from_filepath_by_scheme (E : Env) (path : string) (kw : kwargs) :
  (forall e, Url.urlparse (check_netloc E) path = inl e ->
             create_from_filepath E path kw = inl e)
  /\ forall parsed,
       Url.urlparse (check_netloc E) path = inr parsed ->
       (forall c, backend_of_scheme (Url.scheme parsed) = Some c ->
          create_from_filepath E path kw = instantiate E c path kw
          /\ (forall h, create_from_filepath E path kw = inr h ->
                        class_ h = c /\ filepath h = path)
          /\ (importable E c = true -> kw = ∅ ->
              exists h, create_from_filepath E path kw = inr h))
       /\ (backend_of_scheme (Url.scheme parsed) = None ->
           Url.scheme parsed <> EmptyString
           /\ exists msg, create_from_filepath E path kw = inl (ValueError msg)
                          /\ PyStr.occurs (Url.scheme parsed) msg = true).
Proof.
  split.
  - intros e He. unfold create_from_filepath. now rewrite He.
  - intros parsed Hp.
    pose proof (create_from_filepath_table E path kw parsed Hp) as Ht.
    split.
    + intros c Hc. rewrite Hc in Ht. rewrite Ht. split; [reflexivity|]. split.
      * intros h Hh. apply instantiate_class in Hh. tauto.
      * intros Hdep ->. now apply instantiate_total.
    + intros Hn. rewrite Hn in Ht. split.
      * intros Hs. rewrite Hs in Hn. discriminate.
      * eexists. split; [exact Ht|]. apply occurs_app.
Qed.

(** C1 as it is stated fails: [http://[::1/a] has the scheme [http],
    yet the selector returns no HTTP handle; it raises the error of
    [urlparse], whose message does not name the scheme. *)
Lemma selector_rejects_open_bracket :
  create_from_filepath (sample_env true) "http://[::1/a" ∅
  = inl (ValueError "Invalid IPv6 URL")
  /\ PyStr.occurs "http" "Invalid IPv6 URL" = false
  /\ forall h, create_from_filepath (sample_env true) "http://[::1/a" ∅ <> inr h.
Proof.
  split; [reflexivity|]. split; [reflexivity|]. intros h. discriminate.
Qed.

(** ** Range requests *)







Example range_value_0_9 : range_value 0 9 = "bytes=0-9"%string.
Proof. reflexivity. Qed.

Example http_get_0_9_request :
  let h := set_client 1%nat
             (new_instance HttpFileSystem "http://host/a.pmtiles" false) in
  let w := {| heap := {[ 1%nat := {| obj := HttpClient; closed := false |} ]};
              trace := nil |} in
  trace (snd (snd (get (sample_env true) 0 9 (h, w))))
  = HttpGet 1%nat "http://host/a.pmtiles" (("Range", "bytes=0-9") :: nil)%string
      :: nil.
Proof. reflexivity. Qed.

(** ** Reasoning about methods *)

Section Wp.

Context {A B : Type}.

Lemma wp_bind (m : M A) (k : A -> M B) (Q : exn + B -> St -> Prop) s :
  wp m (fun r s' => match r with
                    | inr a => wp (k a) Q s'
                    | inl e => Q (inl e) s'
                    end) s ->
  wp (bind m k) Q s.
Proof. unfold wp, bind. now destruct (m s) as [[e|a] s']. Qed.

Lemma wp_mono (m : M A) (Q Q' : exn + A -> St -> Prop) s :
  wp m Q s -> (forall r s', Q r s' -> Q' r s') -> wp m Q' s.
Proof. unfold wp. auto. Qed.

Lemma wp_ret (a : A) (Q : exn + A -> St -> Prop) s : Q (inr a) s -> wp (ret a) Q s.
Proof. auto. Qed.

Lemma wp_raise (e : exn) (Q : exn + A -> St -> Prop) s :
  Q (inl e) s -> wp (raise e) Q s.
Proof. auto. Qed.

Lemma wp_lift (r : exn + A) (Q : exn + A -> St -> Prop) s :
  Q r s -> wp (lift r) Q s.
Proof. now destruct r. Qed.

Lemma wp_getattr name (proj : FileSystem -> option A)
      (Q : exn + A -> St -> Prop) s :
  match proj (fst s) with
  | Some v => Q (inr v) s
  | None => Q (inl (AttributeError name)) s
  end ->
  wp (getattr name proj) Q s.
Proof. unfold wp, getattr. now destruct (proj (fst s)). Qed.

End Wp.

Lemma wp_self (Q : exn + FileSystem -> St -> Prop) s :
  Q (inr (fst s)) s -> wp self Q s.
Proof. auto. Qed.

Lemma wp_world (Q : exn + World -> St -> Prop) s :
  Q (inr (snd s)) s -> wp world Q s.
Proof. auto. Qed.

Lemma wp_update_self f (Q : exn + unit -> St -> Prop) s :
  Q (inr tt) (f (fst s), snd s) -> wp (update_self f) Q s.
Proof. auto. Qed.

Lemma wp_emit ev (Q : exn + unit -> St -> Prop) s :
  Q (inr tt) (fst s, {| heap := heap (snd s); trace := trace (snd s) ++ ev :: nil |}) ->
  wp (emit ev) Q s.
Proof. auto. Qed.

Lemma wp_alloc r (Q : exn + rid -> St -> Prop) s :
  Q (inr (fresh (dom (heap (snd s)))))
    (fst s, {| heap := <[fresh (dom (heap (snd s))) := {| obj := r; closed := false |}]>
                         (heap (snd s));
               trace := trace (snd s) |}) ->
  wp (alloc r) Q s.
Proof. auto. Qed.

Lemma wp_store i c (Q : exn + unit -> St -> Prop) s :
  Q (inr tt) (fst s, {| heap := <[i := c]> (heap (snd s)); trace := trace (snd s) |}) ->
  wp (store i c) Q s.
Proof. auto. Qed.

Lemma wp_live i refusal (Q : exn + cell -> St -> Prop) s :
  match heap (snd s) !! i with
  | Some c => if closed c then Q (inl refusal) s else Q (inr c) s
  | None => Q (inl (RuntimeError "dangling reference")) s
  end ->
  wp (live i refusal) Q s.
Proof.
  unfold wp, live, bind, lookup_cell.
  destruct (heap (snd s) !! i) as [c|]; [|auto].
  now destruct (closed c).
Qed.

Lemma wp_lookup_cell i (Q : exn + cell -> St -> Prop) s :
  match heap (snd s) !! i with
  | Some c => Q (inr c) s
  | None => Q (inl (RuntimeError "dangling reference")) s
  end ->
  wp (lookup_cell i) Q s.
Proof. unfold wp, lookup_cell. now destruct (heap (snd s) !! i). Qed.

(** One step through the text of a method. *)
Ltac wp_step :=
  lazymatch goal with
  | |- wp (bind _ _) _ _ => apply wp_bind
  | |- wp (ret _) _ _ => apply wp_ret
  | |- wp (raise _) _ _ => apply wp_raise
  | |- wp (lift _) _ _ => apply wp_lift
  | |- wp (getattr _ _) _ _ => apply wp_getattr
  | |- wp self _ _ => apply wp_self
  | |- wp world _ _ => apply wp_world
  | |- wp (update_self _) _ _ => apply wp_update_self
  | |- wp (emit _) _ _ => apply wp_emit
  | |- wp (alloc _) _ _ => apply wp_alloc
  | |- wp (store _ _) _ _ => apply wp_store
  | |- wp (live _ _) _ _ => apply wp_live
  | |- wp (lookup_cell _) _ _ => apply wp_lookup_cell
  | |- wp (match ?x with _ => _ end) _ _ => destruct x eqn:?
  | |- match ?x with _ => _ end => destruct x eqn:?
  | |- if ?x then _ else _ => destruct x eqn:?
  end;
  cbn [fst snd heap trace class_ filepath ctx request_payer file client
       _session _resource _obj _client _bucket set_ctx set_file set_client
       set__session set__resource set__obj set__client set__bucket].

Ltac wp_run := repeat wp_step.







(** ** The local backend *)

Lemma omap_lookup_seq {X} (l : list X) (n first : nat) :
  omap (fun p : nat => l !! p) (seq first n) = take n (drop first l).
Proof.
  revert first. induction n as [|n IH]; intros first; [reflexivity|].
  change (seq first (S n)) with (first :: seq (S first) n).
  change (omap (fun p : nat => l !! p) (first :: seq (S first) n))
    with (match l !! first with
          | Some x => x :: omap (fun p : nat => l !! p) (seq (S first) n)
          | None => omap (fun p : nat => l !! p) (seq (S first) n)
          end).
  rewrite IH.
  destruct (l !! first) as [x|] eqn:Hx.
  - now rewrite (drop_S l x first Hx).
  - apply lookup_ge_None in Hx.
    rewrite !drop_ge by lia. now rewrite !take_nil.
Qed.

Lemma bytes_between_slice (data : bytes) (first n : Z) :
  0 <= n ->
  bytes_between data first (first + n)
  = take (Z.to_nat (n + 1)) (drop (Z.to_nat first) data).
Proof.
  intros Hn. unfold bytes_between.
  etransitivity; [apply (omap_lookup_seq (X := Byte.byte))|].
  f_equal. lia.
Qed.

Lemma bytes_between_length (data : bytes) (first n : Z) :
  0 <= first -> 0 <= n ->
  length (bytes_between data first (first + n))
  = Z.to_nat (Z.min (n + 1) (Z.of_nat (length data) - first)).
Proof.
  intros Hf Hn. rewrite bytes_between_slice by assumption.
  rewrite length_take, length_drop. lia.
Qed.

(** ** [get] on an open handle, in full *)

Section GetOnOpen.

Variable E : Env.
Variables (h : FileSystem) (w : World) (offset length : Z).

Lemma local_get_eq (f : rid) (data : bytes) (pos : Z) :
  class_ h = LocalFileSystem ->
  file h = Some f ->
  heap w !! f = Some {| obj := File data pos; closed := false |} ->
  0 <= offset -> 0 <= length ->
  in_limits E offset length = true ->
  let out := bytes_between data offset (offset + length) in
  get E offset length (h, w)
  = (inr out,
     (h, {| heap := <[f := {| obj := File data (offset + Z.of_nat (List.length out));
                              closed := false |}]>
                      (<[f := {| obj := File data offset; closed := false |}]>
                         (heap w));
            trace := trace w ++ FileSeek f offset
                       :: FileRead f (length + 1) :: nil |})).
Proof.
  intros Hcls Hf Hc Ho Hl Hlim out. subst out.
  unfold in_limits in Hlim.
  apply andb_prop in Hlim as [Hlim Hmr]. apply andb_prop in Hlim as [Hlim Hsz].
  apply andb_prop in Hlim as [Hot Hmo].
  apply Z.leb_le in Hot, Hmo, Hsz, Hmr.
  assert (off_t_min < 0 /\ ssize_t_min < 0) as [Hmin Hmin'] by (split; reflexivity).
  rewrite bytes_between_slice by assumption.
  unfold get, LocalFileSystem_get, file_seek, file_read, live.
  unfold bind, self, getattr, lookup_cell, emit, store, ret, raise.
  cbn [fst snd heap trace]. rewrite Hcls. cbn [fst snd heap trace].
  rewrite Hf. cbn [fst snd heap trace].
  rewrite Hc. cbn [fst snd heap trace closed obj].
  destruct ((offset <? off_t_min) || (off_t_max <? offset)) eqn:H1;
    [apply orb_prop in H1 as [H1|H1]; lia|].
  destruct ((offset <? 0) || (max_offset E <? offset)) eqn:H2;
    [apply orb_prop in H2 as [H2|H2]; lia|].
  cbn [fst snd heap trace]. rewrite Hf. cbn [fst snd heap trace].
  destruct ((length + 1 <? ssize_t_min) || (ssize_t_max <? length + 1)) eqn:H3;
    [apply orb_prop in H3 as [H3|H3]; lia|].
  destruct (length + 1 <? -1) eqn:H4; [lia|].
  cbn [fst snd heap trace].
  rewrite lookup_insert_eq. cbn [fst snd heap trace closed obj].
  destruct (max_read E <? length + 1) eqn:H5; [lia|].
  destruct (length + 1 =? -1) eqn:H6; [lia|].
  cbn [fst snd heap trace]. now rewrite <- app_assoc.
Qed.

(** Beyond the limits the read raises: at the seek when the offset is
    too large, at the read when the size is. *)
Lemma local_get_beyond (f : rid) (data : bytes) (pos : Z) :
  class_ h = LocalFileSystem ->
  file h = Some f ->
  heap w !! f = Some {| obj := File data pos; closed := false |} ->
  0 <= offset -> 0 <= length ->
  in_limits E offset length = false ->
  exists e, fst (get E offset length (h, w)) = inl e.
Proof.
  intros Hcls Hf Hc Ho Hl Hlim.
  unfold get, LocalFileSystem_get, file_seek, file_read, live.
  unfold bind, self, getattr, lookup_cell, emit, store, ret, raise.
  cbn [fst snd heap trace]. rewrite Hcls. cbn [fst snd heap trace].
  rewrite Hf. cbn [fst snd heap trace].
  rewrite Hc. cbn [fst snd heap trace closed obj].
  destruct ((offset <? off_t_min) || (off_t_max <? offset)) eqn:H1;
    [cbn; eauto|].
  destruct ((offset <? 0) || (max_offset E <? offset)) eqn:H2;
    [cbn; eauto|].
  cbn [fst snd heap trace]. rewrite Hf. cbn [fst snd heap trace].
  destruct ((length + 1 <? ssize_t_min) || (ssize_t_max <? length + 1)) eqn:H3;
    [cbn; eauto|].
  destruct (length + 1 <? -1) eqn:H4; [cbn; eauto|].
  cbn [fst snd heap trace].
  rewrite lookup_insert_eq. cbn [fst snd heap trace closed obj].
  destruct (max_read E <? length + 1) eqn:H5; [cbn; eauto|].
  exfalso. apply orb_false_elim in H1 as [_ H1]. apply orb_false_elim in H2 as [_ H2].
  apply orb_false_elim in H3 as [_ H3].
  unfold in_limits in Hlim.
  apply Z.ltb_ge in H1, H2, H3, H5.
  apply Z.leb_le in H1, H2, H3, H5. rewrite H1, H2, H3, H5 in Hlim. discriminate.
Qed.




End GetOnOpen.



(** C3 (as the code has it). On an open local handle over a file of
    [n] bytes, for non-negative [offset] and [length] that the platform
    takes (an offset that fits [off_t] and that the file system accepts
    in a seek, a size [length + 1] that fits [ssize_t] and that a read
    can allocate), [get] seeks to [offset] and reads [length + 1] bytes:
    it returns, without raising, the bytes at the positions [offset] to
    [offset + length] that the file has, which are
    [min(length + 1, n - offset)] bytes (none when the offset lies
    behind the end).  Beyond those limits it raises. *)
Theorem LocalFileSystem_get_bytes (E : Env) (h : FileSystem) (w : World)
        (f : rid) (data : bytes) (pos offset length : Z) :
  class_ h = LocalFileSystem ->
  file h = Some f ->
  heap w !! f = Some {| obj := File data pos; closed := false |} ->
  0 <= offset -> 0 <= length ->
  let r := get E offset length (h, w) in
  (in_limits E offset length = true ->
   fst r = inr (bytes_between data offset (offset + length))
   /\ trace (snd (snd r))
      = trace w ++ FileSeek f offset :: FileRead f (length + 1) :: nil)
  /\ (in_limits E offset length = false -> exists e, fst r = inl e)
  /\ List.length (bytes_between data offset (offset + length))
     = Z.to_nat (Z.min (length + 1) (Z.of_nat (List.length data) - offset))
  /\ forall i x, bytes_between data offset (offset + length) !! i = Some x ->
                 data !! (Z.to_nat offset + i)%nat = Some x.
Proof.
  intros Hcls Hf Hc Ho Hl r. subst r.
  split; [|split; [|split]].
  - intros Hlim.
    rewrite (local_get_eq E h w offset length f data pos) by assumption.
    split; reflexivity.
  - now apply local_get_beyond with (f := f) (data := data) (pos := pos).
  - now apply bytes_between_length.
  - rewrite bytes_between_slice by assumption.
    intros i x Hi. apply lookup_take_Some in Hi as [Hi _].
    now rewrite lookup_drop in Hi.
Qed.

Lemma LocalFileSystem_get_bytes_witness :
  let h := set_file 1%nat (new_instance LocalFileSystem "/data/a.pmtiles" false) in
  let w := {| heap := {[ 1%nat := {| obj := File sample_data 0; closed := false |} ]};
              trace := nil |} in
  List.length sample_data = 100%nat
  /\ in_limits (sample_env true) 10 4 = true
  /\ fst (get (sample_env true) 10 4 (h, w))
     = inr (Byte.x0a :: Byte.x0b :: Byte.x0c :: Byte.x0d :: Byte.x0e :: nil).
Proof.
  intros h w. split; [reflexivity|]. split; [reflexivity|].
  destruct (LocalFileSystem_get_bytes (sample_env true) h w 1%nat sample_data 0 10 4)
    as (Hr & _); [reflexivity|reflexivity|reflexivity|lia|lia|].
  exact (proj1 (Hr eq_refl)).
Defined.

(** C3 as it is stated fails: at the non-negative offset [2^64], which
    no [off_t] holds, the seek raises and [get] returns no bytes. *)
Lemma get_beyond_off_t_raises :
  let h := set_file 1%nat (new_instance LocalFileSystem "/data/a.pmtiles" false) in
  let w := {| heap := {[ 1%nat := {| obj := File sample_data 0; closed := false |} ]};
              trace := nil |} in
  0 <= 18446744073709551616 /\ 0 <= 4
  /\ file h = Some 1%nat
  /\ heap w !! 1%nat = Some {| obj := File sample_data 0; closed := false |}
  /\ fst (get (sample_env true) 18446744073709551616 4 (h, w))
     = inl (ValueError "cannot fit 'int' into an offset-sized integer").
Proof.
  cbv zeta. split; [lia|]. split; [lia|]. split; [reflexivity|].
  split; reflexivity.
Qed.

(** ** The HTTP backend *)

(** C4. On an HTTP handle, [get] returns bytes only when the request
    was answered with a success status, and then the bytes are the body
    of the answer; on an open handle a response with any other status
    (404, say) makes [get] raise the status error, and a response with a
    success status makes it return the body. *)
Theorem HttpFileSystem_get_status (E : Env) (h : FileSystem) (w : World)
        (offset length : Z) :
  class_ h = HttpFileSystem ->
  let headers := ("Range"%string, range_value offset length) :: nil in
  (forall b, fst (get E offset length (h, w)) = inr b ->
     exists resp, http_send E (trace w) (filepath h) headers = inr resp
                  /\ is_success resp = true /\ content resp = b)
  /\ (forall c resp,
        client h = Some c ->
        heap w !! c = Some {| obj := HttpClient; closed := false |} ->
        http_send E (trace w) (filepath h) headers = inr resp ->
        fst (get E offset length (h, w))
        = if is_success resp then inr (content resp)
          else inl (HTTPStatusError (status_code resp))).
Proof.
  intros Hcls headers. subst headers.
  unfold get, HttpFileSystem_get, httpx_get, raise_for_status, live.
  unfold bind, self, world, getattr, lookup_cell, emit, lift, ret, raise.
  cbn [fst snd heap trace]. rewrite Hcls. cbn [fst snd heap trace].
  split.
  - intros b.
    destruct (client h) as [c|]; cbn [fst snd heap trace]; [|discriminate].
    destruct (heap w !! c) as [cl|]; cbn [fst snd heap trace]; [|discriminate].
    destruct (closed cl); cbn [fst snd heap trace]; [discriminate|].
    destruct (http_send E (trace w) (filepath h) _) as [e|resp] eqn:Hr;
      cbn [fst snd heap trace]; [discriminate|].
    destruct (is_success resp) eqn:Hs; cbn [fst snd heap trace]; [|discriminate].
    intros [= <-]. exists resp. auto.
  - intros c resp Hc Hl Hr. rewrite Hc. cbn [fst snd heap trace].
    rewrite Hl. cbn [fst snd heap trace closed]. rewrite Hr.
    cbn [fst snd heap trace].
    now destruct (is_success resp).
Qed.

Lemma HttpFileSystem_get_status_witness :
  let h := set_client 1%nat (new_instance HttpFileSystem "http://host/a.pmtiles" false) in
  let w := {| heap := {[ 1%nat := {| obj := HttpClient; closed := false |} ]};
              trace := nil |} in
  class_ h = HttpFileSystem
  /\ fst (get (sample_env true) 0 9 (h, w)) = inl (HTTPStatusError 404).
Proof.
  intros h w. split; [reflexivity|].
  destruct (HttpFileSystem_get_status (sample_env true) h w 0 9) as [_ H];
    [reflexivity|].
  exact (H 1%nat {| status_code := 404; content := nil |}
           eq_refl eq_refl eq_refl).
Defined.

(** ** Missing client libraries *)

(** C5. When the guarded import of the client library failed, calling
    the class never yields a handle: [S3FileSystem] and
    [AtlasS3FileSystem] (without [aioboto3]) and [GcsFileSystem]
    (without [gcloud-aio-storage]) raise as soon as they are called, and
    when the options are ones the class accepts the exception is the
    [AssertionError] of [__post_init__], whose message contains the name
    of the missing library. *)
Theorem missing_dependency_at_construction (E : Env) (path : string) (kw : kwargs) :
  (aioboto3 E = false ->
   forall c, c = S3FileSystem \/ c = AtlasS3FileSystem ->
     (forall h, instantiate E c path kw <> inr h)
     /\ (delete "request_payer"%string kw = ∅ ->
         exists msg, instantiate E c path kw = inl (AssertionError msg)
                     /\ PyStr.occurs "aioboto3" msg = true))
  /\ (GcpStorage E = false ->
      (forall h, instantiate E GcsFileSystem path kw <> inr h)
      /\ (kw = ∅ ->
          exists msg, instantiate E GcsFileSystem path kw = inl (AssertionError msg)
                      /\ PyStr.occurs "gcloud-aio-storage" msg = true)).
Proof.
  split.
  - intros Hdep c [-> | ->]; cbn [instantiate];
      unfold S3FileSystem_new, AtlasS3FileSystem_new, S3_init,
        S3FileSystem_post_init; rewrite Hdep;
      (split; [intros h; case_decide; discriminate|]);
      intros Hkw; (case_decide; [|contradiction]);
      eexists; (split; [reflexivity|]); reflexivity.
  - intros Hdep. cbn [instantiate].
    unfold GcsFileSystem_new, GcsFileSystem_post_init. rewrite Hdep.
    split; [intros h; case_decide; discriminate|].
    intros Hkw. case_decide; [|contradiction].
    eexists. split; reflexivity.
Qed.

Lemma missing_dependency_at_construction_witness :
  aioboto3 (sample_env false) = false
  /\ GcpStorage (sample_env false) = false
  /\ create_from_filepath (sample_env false) "s3://bucket/key.ext" ∅
     = inl (AssertionError "'aioboto3' must be installed to use S3 FileSystem")
  /\ (forall h, instantiate (sample_env false) GcsFileSystem "gs://bucket/key.ext" ∅
                <> inr h).
Proof.
  split; [reflexivity|]. split; [reflexivity|]. split; [reflexivity|].
  destruct (missing_dependency_at_construction
              (sample_env false) "gs://bucket/key.ext" ∅) as [_ H].
  exact (proj1 (H eq_refl)).
Defined.

(** ** [str.strip] *)

Section Strip.

Variable drop : ascii -> bool.

Lemma lstrip_app (s : string) :
  exists a, s = a +:+ PyStr.lstrip drop s /\ PyStr.forallb drop a = true.
Proof.
  induction s as [|c s (a & Hs & Ha)]; [now exists EmptyString|].
  cbn [PyStr.lstrip]. destruct (drop c) eqn:Hc.
  - exists (String c a). split.
    + change (String c s = String c (a +:+ PyStr.lstrip drop s)).
      now f_equal.
    + cbn [PyStr.forallb]. now rewrite Hc, Ha.
  - now exists EmptyString.
Qed.

Lemma lstrip_first (s : string) (c : ascii) :
  PyStr.first_chr (PyStr.lstrip drop s) = Some c -> drop c = false.
Proof.
  induction s as [|x s IH]; cbn [PyStr.lstrip]; [discriminate|].
  destruct (drop x) eqn:Hx; [exact IH|].
  cbn. now intros [= <-].
Qed.

Lemma rstrip_app (s : string) :
  exists b, s = PyStr.rstrip drop s +:+ b /\ PyStr.forallb drop b = true.
Proof.
  induction s as [|c s (b & Hs & Hb)]; [now exists EmptyString|].
  cbn [PyStr.rstrip]. destruct (PyStr.rstrip drop s) as [|y r] eqn:Hr.
  - change (s = b) in Hs. subst b. destruct (drop c) eqn:Hc.
    + exists (String c s). split; [reflexivity|].
      cbn [PyStr.forallb]. now rewrite Hc, Hb.
    + now exists s.
  - exists b. split; [|assumption].
    change (String c s = String c (String y r +:+ b)). now f_equal.
Qed.

Lemma rstrip_last (s : string) (c : ascii) :
  PyStr.last_chr (PyStr.rstrip drop s) = Some c -> drop c = false.
Proof.
  induction s as [|x s IH]; cbn [PyStr.rstrip]; [discriminate|].
  destruct (PyStr.rstrip drop s) as [|y r] eqn:Hr.
  - destruct (drop x) eqn:Hx; cbn; [discriminate|]. now intros [= <-].
  - exact IH.
Qed.

Lemma rstrip_first (s : string) (c : ascii) :
  PyStr.first_chr (PyStr.rstrip drop s) = Some c -> PyStr.first_chr s = Some c.
Proof.
  destruct s as [|x s]; cbn [PyStr.rstrip]; [discriminate|].
  destruct (PyStr.rstrip drop s); [destruct (drop x)|]; cbn; congruence.
Qed.

(** [s.strip(chars)] is [s] without the longest run of [chars] at its
    start and at its end. *)
Lemma strip_spec (s : string) :
  (exists a b, s = a +:+ PyStr.strip drop s +:+ b
               /\ PyStr.forallb drop a = true /\ PyStr.forallb drop b = true)
  /\ (forall c, PyStr.first_chr (PyStr.strip drop s) = Some c -> drop c = false)
  /\ (forall c, PyStr.last_chr (PyStr.strip drop s) = Some c -> drop c = false).
Proof.
  unfold PyStr.strip. split; [|split].
  - destruct (lstrip_app s) as (a & Hs & Ha).
    destruct (rstrip_app (PyStr.lstrip drop s)) as (b & Hl & Hb).
    exists a, b. split; [|auto]. now rewrite <- Hl.
  - intros c Hc. apply rstrip_first in Hc. now apply lstrip_first in Hc.
  - apply rstrip_last.
Qed.

End Strip.

(** ** Ownership is kept by every step *)

Section Ownership.

Variable old : gmap rid cell.

Lemma owns_trace h hp t t' :
  owns old (h, {| heap := hp; trace := t |}) ->
  owns old (h, {| heap := hp; trace := t' |}).
Proof. intros [H1 H2 H3 H4]. constructor; auto. Qed.

Lemma owns_fresh h hp t :
  owns old (h, {| heap := hp; trace := t |}) -> old !! fresh (dom hp) = None.
Proof.
  intros [H1 _ _ _]. destruct (old !! fresh (dom hp)) as [c|] eqn:Hc; [|reflexivity].
  apply H1 in Hc. cbn in Hc.
  exfalso. apply (is_fresh (dom hp)). apply elem_of_dom. eauto.
Qed.

Lemma owns_update h h' w :
  owns old (h, w) ->
  ctx h' = ctx h ->
  (forall r, r ∈ clients h' ->
     r ∈ clients h
     \/ (old !! r = None
         /\ exists c, heap w !! r = Some c /\ entered (obj c) = true)) ->
  owns old (h', w).
Proof.
  intros [H1 H2 H3 H4] Hctx Hcl. constructor; cbn [fst snd] in *.
  - exact H1.
  - now rewrite Hctx.
  - rewrite Hctx. exact H3.
  - intros r Hr. destruct (Hcl r Hr) as [Hin|Hnew]; auto.
Qed.

Lemma owns_alloc_plain h hp t res :
  owns old (h, {| heap := hp; trace := t |}) ->
  entered res = false ->
  owns old (h, {| heap := <[fresh (dom hp) := {| obj := res; closed := false |}]> hp;
                  trace := t |}).
Proof.
  intros Ho Hres. pose proof (owns_fresh _ _ _ Ho) as Hf.
  destruct Ho as [H1 H2 H3 H4]. cbn [fst snd heap] in *.
  assert (hp !! fresh (dom hp) = None) as Hnone
      by (apply not_elem_of_dom, is_fresh).
  constructor; cbn [fst snd heap].
  - intros r c Hr. rewrite lookup_insert_ne by congruence. auto.
  - exact H2.
  - intros r c Hr Ho He. destruct (decide (fresh (dom hp) = r)) as [<-|Hne].
    + rewrite lookup_insert_eq in Hr. injection Hr as <-. cbn in He. congruence.
    + rewrite lookup_insert_ne in Hr by assumption. eauto.
  - intros r Hr. destruct (H4 r Hr) as (Hn & c & Hc & He). split; [assumption|].
    exists c. split; [|assumption].
    rewrite lookup_insert_ne by congruence. assumption.
Qed.

Lemma owns_alloc_push h hp t res :
  owns old (h, {| heap := hp; trace := t |}) ->
  owns old (set_ctx (fresh (dom hp) :: ctx h) h,
            {| heap := <[fresh (dom hp) := {| obj := res; closed := false |}]> hp;
               trace := t |}).
Proof.
  intros Ho. pose proof (owns_fresh _ _ _ Ho) as Hf.
  destruct Ho as [H1 H2 H3 H4]. cbn [fst snd heap] in *.
  assert (hp !! fresh (dom hp) = None) as Hnone
      by (apply not_elem_of_dom, is_fresh).
  constructor; cbn [fst snd heap ctx set_ctx].
  - intros r c Hr. rewrite lookup_insert_ne by congruence. auto.
  - intros r [->|Hr]%elem_of_cons; auto.
  - intros r c Hr Ho He.
    destruct (decide (fresh (dom hp) = r)) as [<-|Hne];
      [right; now apply elem_of_cons; left|].
    rewrite lookup_insert_ne in Hr by assumption.
    destruct (H3 r c Hr Ho He) as [Hcl|Hin]; [now left|].
    right. apply elem_of_cons. now right.
  - intros r Hr. destruct (H4 r Hr) as (Hn & c & Hc & He). split; [assumption|].
    exists c. split; [|assumption].
    rewrite lookup_insert_ne by congruence. assumption.
Qed.

Lemma owns_store h hp t f c c' :
  owns old (h, {| heap := hp; trace := t |}) ->
  hp !! f = Some c -> old !! f = None ->
  closed c = false -> entered (obj c) = true -> entered (obj c') = true ->
  owns old (h, {| heap := <[f := c']> hp; trace := t |}).
Proof.
  intros [H1 H2 H3 H4] Hf Hof Hcl He He'. cbn [fst snd heap] in *.
  constructor; cbn [fst snd heap].
  - intros r x Hr. rewrite lookup_insert_ne by congruence. auto.
  - exact H2.
  - intros r x Hr Ho Hx. destruct (decide (f = r)) as [<-|Hne].
    + right. destruct (H3 f c Hf Hof He) as [?|?]; [congruence|assumption].
    + rewrite lookup_insert_ne in Hr by assumption. eauto.
  - intros r Hr. destruct (H4 r Hr) as (Hn & x & Hx & Hex). split; [assumption|].
    destruct (decide (f = r)) as [<-|Hne].
    + exists c'. now rewrite lookup_insert_eq.
    + exists x. now rewrite lookup_insert_ne.
Qed.

Lemma owns_new c path payer w :
  old = heap w -> owns old (new_instance c path payer, w).
Proof.
  intros ->. constructor; cbn [fst snd new_instance ctx]; auto.
  - intros r Hr. now apply elem_of_nil in Hr.
  - intros r x Hr Hn. congruence.
  - intros r Hr. now apply elem_of_nil in Hr.
Qed.

End Ownership.

(** ** Closing *)

Section Closing.

Variable E : Env.

Lemma resource_aexit_heap (a : rid) (w : World) (r : rid) :
  heap (snd (resource_aexit E a w)) !! r
  = if decide (r = a) then close_cell <$> heap w !! r else heap w !! r.
Proof.
  unfold resource_aexit. cbn [snd heap].
  destruct (decide (r = a)) as [->|Hne].
  - destruct (heap w !! a) as [c|] eqn:Hc.
    + now rewrite lookup_insert_eq.
    + now rewrite Hc.
  - destruct (heap w !! a) as [c|]; [|reflexivity].
    now rewrite lookup_insert_ne by congruence.
Qed.

Lemma close_cell_twice (x : option cell) :
  close_cell <$> (close_cell <$> x) = close_cell <$> x.
Proof. now destruct x. Qed.

(** Unwinding closes the registered objects and touches no other. *)
Lemma unwind_heap (callbacks : list rid) (pending : option exn) (w : World)
      (r : rid) :
  heap (snd (unwind E callbacks pending w)) !! r
  = if decide (r ∈ callbacks) then close_cell <$> heap w !! r
    else heap w !! r.
Proof.
  revert pending w. induction callbacks as [|a rest IH]; intros pending w.
  - cbn [unwind snd]. destruct (decide (r ∈ [])) as [Hin|_]; [|reflexivity].
    now apply elem_of_nil in Hin.
  - cbn [unwind]. destruct (resource_aexit E a w) as [res w'] eqn:Hw.
    rewrite IH.
    assert (heap w' = heap (snd (resource_aexit E a w))) as -> by now rewrite Hw.
    rewrite resource_aexit_heap.
    destruct (decide (r ∈ rest)) as [Hrest|Hrest];
      destruct (decide (r = a)) as [->|Hne];
      destruct (decide (_ ∈ a :: rest)) as [Hin|Hin];
      try reflexivity; try apply close_cell_twice;
      exfalso; apply Hin || (apply elem_of_cons in Hin; tauto).
    + apply elem_of_cons. now left.
    + apply elem_of_cons. now right.
    + apply elem_of_cons. now left.
Qed.

(** What unwinding raises was raised by the exit of a registered
    object, unless it was pending already. *)
Lemma unwind_pending (callbacks : list rid) (pending : option exn) (w : World)
      (e : exn) :
  fst (unwind E callbacks pending w) = Some e ->
  pending = Some e
  \/ exists t r, r ∈ callbacks /\ on_exit E t r = Some e.
Proof.
  revert pending w. induction callbacks as [|a rest IH]; intros pending w.
  - cbn. auto.
  - cbn [unwind]. unfold resource_aexit.
    intros [Hp|(t & r & Hr & Ht)]%IH.
    + destruct (on_exit E (trace w) a) as [e'|] eqn:Ha; [|now left].
      right. exists (trace w), a. split; [apply elem_of_cons; now left|].
      congruence.
    + right. exists t, r. split; [apply elem_of_cons; now right|assumption].
Qed.

Lemma aexit_state (s : St) :
  snd (aexit E s)
  = (set_ctx nil (fst s), snd (unwind E (ctx (fst s)) None (snd s))).
Proof.
  unfold aexit, FileSystem_aexit, aclose.
  now destruct (unwind E (ctx (fst s)) None (snd s)).
Qed.

Lemma aexit_heap (s : St) (r : rid) :
  heap (snd (snd (aexit E s))) !! r
  = if decide (r ∈ ctx (fst s)) then close_cell <$> heap (snd s) !! r
    else heap (snd s) !! r.
Proof. rewrite aexit_state. apply unwind_heap. Qed.

Lemma aexit_raises (s : St) (e : exn) :
  fst (aexit E s) = inl e ->
  exists t r, r ∈ ctx (fst s) /\ on_exit E t r = Some e.
Proof.
  unfold aexit, FileSystem_aexit, aclose.
  destruct (unwind E (ctx (fst s)) None (snd s)) as [[e'|] w'] eqn:Hu;
    cbn [fst]; [|discriminate].
  intros [= <-].
  destruct (unwind_pending (ctx (fst s)) None (snd s) e') as [?|?];
    [now rewrite Hu|discriminate|assumption].
Qed.

Lemma aexit_again (h : FileSystem) (w : World) :
  ctx h = nil -> aexit E (h, w) = (inr tt, (h, w)).
Proof.
  intros Hc. unfold aexit, FileSystem_aexit, aclose. cbn [fst snd].
  rewrite Hc. cbn [unwind]. destruct h. cbn in Hc. subst. reflexivity.
Qed.

Lemma owns_aexit (old : gmap rid cell) (s : St) :
  owns old s -> owns old (snd (aexit E s)).
Proof.
  intros [H1 H2 H3 H4]. constructor.
  - intros r c Hr. rewrite aexit_heap.
    destruct (decide (r ∈ ctx (fst s))) as [Hin|_]; [|auto].
    apply H2 in Hin. congruence.
  - rewrite aexit_state. cbn [fst ctx set_ctx]. intros r Hr.
    now apply elem_of_nil in Hr.
  - intros r c. rewrite aexit_heap. intros Hr Ho He. left.
    destruct (decide (r ∈ ctx (fst s))) as [Hin|Hout].
    + destruct (heap (snd s) !! r); [|discriminate].
      cbn in Hr. now injection Hr as <-.
    + destruct (H3 r c Hr Ho He); [assumption|contradiction].
  - intros r. rewrite aexit_state at 1. cbn [fst]. intros Hr.
    change (clients (set_ctx nil (fst s))) with (clients (fst s)) in Hr.
    destruct (H4 r Hr) as (Hn & c & Hc & He). split; [assumption|].
    rewrite aexit_heap. destruct (decide (r ∈ ctx (fst s))).
    + exists (close_cell c). now rewrite Hc.
    + eauto.
Qed.

End Closing.

(** ** Ownership through the methods *)

Ltac owns_trace_solve :=
  first [ eassumption | eapply owns_trace; eassumption ].

Section Steps.

Variable E : Env.
Variable old : gmap rid cell.

Lemma file_seek_keeps (f : rid) (offset : Z) (s : St) :
  owns old s -> f ∈ clients (fst s) ->
  wp (file_seek E f offset) (fun _ s' => owns old s' /\ fst s' = fst s) s.
Proof.
  destruct s as [h [hp t]]. intros Ho Hf.
  destruct (owns_clients _ _ Ho f Hf) as (Hn & _).
  unfold file_seek. wp_run;
    (split; [|reflexivity]); try owns_trace_solve.
  match goal with
  | Hc : hp !! f = Some ?c, Hobj : obj ?c = File _ _ |- _ =>
      eapply owns_store with (c := c); try eassumption;
      try owns_trace_solve; [now rewrite Hobj | reflexivity]
  end.
Qed.

Lemma file_read_keeps (f : rid) (size : Z) (s : St) :
  owns old s -> f ∈ clients (fst s) ->
  wp (file_read E f size) (fun _ s' => owns old s' /\ fst s' = fst s) s.
Proof.
  destruct s as [h [hp t]]. intros Ho Hf.
  destruct (owns_clients _ _ Ho f Hf) as (Hn & _).
  unfold file_read. wp_run;
    (split; [|reflexivity]); try owns_trace_solve;
    match goal with
    | Hc : hp !! f = Some ?c, Hobj : obj ?c = File _ _ |- _ =>
        eapply owns_store with (c := c); try eassumption;
        try owns_trace_solve; [now rewrite Hobj | reflexivity]
    end.
Qed.

Lemma httpx_get_keeps c url headers : keeps old (httpx_get E c url headers).
Proof.
  intros [h [hp t]] Ho. unfold httpx_get.
  wp_run; (split; [|reflexivity]); owns_trace_solve.
Qed.

Lemma object_get_keeps o range payer : keeps old (object_get E o range payer).
Proof.
  intros [h [hp t]] Ho. unfold object_get.
  wp_run; (split; [|reflexivity]); owns_trace_solve.
Qed.

Lemma storage_download_keeps c bucket name headers :
  keeps old (storage_download E c bucket name headers).
Proof.
  intros [h [hp t]] Ho. unfold storage_download.
  wp_run; (split; [|reflexivity]); owns_trace_solve.
Qed.

Lemma clients_file h f : file h = Some f -> f ∈ clients h.
Proof. unfold clients. intros ->. cbn. apply elem_of_cons. now left. Qed.

Lemma LocalFileSystem_get_keeps offset length :
  keeps old (LocalFileSystem_get E offset length).
Proof.
  intros s Ho. unfold LocalFileSystem_get.
  apply wp_bind, wp_getattr. destruct (file (fst s)) as [f|] eqn:Hf; [|now split].
  apply wp_bind. eapply wp_mono;
    [apply file_seek_keeps; auto using clients_file|].
  intros [e|[]] s' [Ho' Heq]; [now split|].
  apply wp_bind, wp_getattr. rewrite Heq, Hf.
  eapply wp_mono; [apply file_read_keeps; [assumption|]|].
  - rewrite Heq. now apply clients_file.
  - intros r s'' [Ho'' Heq']. split; [assumption|congruence].
Qed.

Lemma HttpFileSystem_get_keeps offset length :
  keeps old (HttpFileSystem_get E offset length).
Proof.
  intros s Ho. unfold HttpFileSystem_get, raise_for_status.
  apply wp_bind, wp_getattr. destruct (client (fst s)) as [c|]; [|now split].
  apply wp_bind, wp_self. apply wp_bind.
  eapply wp_mono; [now apply httpx_get_keeps|].
  intros [e|resp] s' [Ho' Heq]; [now split|].
  wp_run; now split.
Qed.

Lemma S3FileSystem_get_keeps offset length :
  keeps old (S3FileSystem_get E offset length).
Proof.
  intros s Ho. unfold S3FileSystem_get.
  apply wp_bind, wp_self. apply wp_bind, wp_getattr.
  destruct (_obj (fst s)) as [o|]; [|now split].
  now apply object_get_keeps.
Qed.

Lemma GcsFileSystem_get_keeps offset length :
  keeps old (GcsFileSystem_get E offset length).
Proof.
  intros s Ho. unfold GcsFileSystem_get.
  apply wp_bind, wp_getattr. destruct (_client (fst s)) as [c|]; [|now split].
  apply wp_bind, wp_getattr. destruct (_bucket (fst s)) as [b|]; [|now split].
  apply wp_bind, wp_getattr. destruct (_obj (fst s)) as [[?|name]|];
    [now split| |now split].
  now apply storage_download_keeps.
Qed.

Ltac enters_solve hp :=
  split; [|split; [reflexivity|]];
  [ first [ owns_trace_solve
          | apply owns_alloc_push; owns_trace_solve ]
  | first [ discriminate
          | intros ? [= <-]; split;
            [ eapply owns_fresh; eassumption
            | eexists; split; [apply lookup_insert_eq|reflexivity] ] ] ].

Lemma aiofiles_open_enters path : enters old (aiofiles_open E path).
Proof.
  intros [h [hp t]] Ho. unfold enter_async_context, aiofiles_open.
  wp_run; enters_solve hp.
Qed.

Lemma httpx_AsyncClient_enters : enters old httpx_AsyncClient.
Proof.
  intros [h [hp t]] Ho. unfold enter_async_context, httpx_AsyncClient.
  wp_run; enters_solve hp.
Qed.

Lemma session_resource_enters session : enters old (session_resource E session).
Proof.
  intros [h [hp t]] Ho. unfold enter_async_context, session_resource.
  wp_run; enters_solve hp.
Qed.

Lemma GcpStorage_new_enters : enters old (GcpStorage_new E).
Proof.
  intros [h [hp t]] Ho. unfold enter_async_context, GcpStorage_new.
  wp_run; enters_solve hp.
Qed.

Lemma update_self_owns (f : FileSystem -> FileSystem) (s : St) :
  owns old s ->
  ctx (f (fst s)) = ctx (fst s) ->
  (forall r, r ∈ clients (f (fst s)) -> r ∈ clients (fst s) \/ acquired old r s) ->
  owns old (f (fst s), snd s).
Proof.
  destruct s as [h w]. intros Ho Hctx Hcl.
  eapply owns_update; [exact Ho|exact Hctx|exact Hcl].
Qed.

Lemma clients_set_file v h r :
  r ∈ clients (set_file v h) -> r = v \/ r ∈ clients h.
Proof.
  unfold clients. simpl.
  repeat (rewrite elem_of_app || rewrite elem_of_cons). tauto.
Qed.

Lemma clients_set_client v h r :
  r ∈ clients (set_client v h) -> r = v \/ r ∈ clients h.
Proof.
  unfold clients. simpl.
  repeat (rewrite elem_of_app || rewrite elem_of_cons). tauto.
Qed.

Lemma clients_set__client v h r :
  r ∈ clients (set__client v h) -> r = v \/ r ∈ clients h.
Proof.
  unfold clients. simpl.
  repeat (rewrite elem_of_app || rewrite elem_of_cons). tauto.
Qed.

Lemma clients_set__obj o h r :
  r ∈ clients (set__obj o h) ->
  (exists b k, o = ObjectRef r b k) \/ r ∈ clients h.
Proof.
  unfold clients. simpl.
  rewrite !elem_of_app. intros [?|[?|[?|Hr]]]; auto.
  destruct o as [res b k|name]; [|now apply elem_of_nil in Hr].
  apply list_elem_of_singleton in Hr as ->. eauto.
Qed.

Lemma LocalFileSystem_aenter_owns (s : St) :
  owns old s -> wp (LocalFileSystem_aenter E) (fun _ s' => owns old s') s.
Proof.
  intros Ho. unfold LocalFileSystem_aenter.
  apply wp_bind, wp_self. apply wp_bind.
  eapply wp_mono; [now apply aiofiles_open_enters|].
  intros [e|f] s' (Ho' & Hcl & Hacq); [assumption|].
  apply wp_update_self, update_self_owns; [assumption|reflexivity|].
  intros r [->|Hr]%clients_set_file; [right; now apply Hacq|now left].
Qed.

Lemma HttpFileSystem_aenter_owns (s : St) :
  owns old s -> wp HttpFileSystem_aenter (fun _ s' => owns old s') s.
Proof.
  intros Ho. unfold HttpFileSystem_aenter. apply wp_bind.
  eapply wp_mono; [now apply httpx_AsyncClient_enters|].
  intros [e|f] s' (Ho' & Hcl & Hacq); [assumption|].
  apply wp_update_self, update_self_owns; [assumption|reflexivity|].
  intros r [->|Hr]%clients_set_client; [right; now apply Hacq|now left].
Qed.

Lemma GcsFileSystem_aenter_owns (s : St) :
  owns old s -> wp (GcsFileSystem_aenter E) (fun _ s' => owns old s') s.
Proof.
  intros Ho. unfold GcsFileSystem_aenter.
  apply wp_bind, wp_self. apply wp_bind, wp_lift.
  destruct (Url.urlparse _ (filepath (fst s))) as [e|parsed]; [assumption|].
  apply wp_bind.
  eapply wp_mono; [now apply GcpStorage_new_enters|].
  intros [e|c] s' (Ho' & Hcl & Hacq); [assumption|].
  apply wp_bind, wp_update_self. apply wp_bind, wp_update_self.
  apply wp_update_self. cbn [fst snd].
  apply (update_self_owns
           (fun h => set__obj (ObjectName (PyStr.strip slash (Url.path parsed)))
                       (set__bucket (Url.netloc parsed) (set__client c h))));
    [assumption|reflexivity|].
  intros r [(b & k & [=])|Hr]%clients_set__obj.
  change (clients (set__bucket (Url.netloc parsed) (set__client c (fst s'))))
    with (clients (set__client c (fst s'))) in Hr.
  apply clients_set__client in Hr as [->|Hr]; [right; now apply Hacq|now left].
Qed.

(** Opening the two S3 classes: once the session is there, both go
    the same way. *)
Lemma S3_connect_owns (bucket key : string) (s : St) :
  owns old s ->
  wp (x <- getattr "_session" _session ;;
      r <- enter_async_context (session_resource E x) ;;
      update_self (set__resource r) ;;;
      r <- getattr "_resource" _resource ;;
      o <- resource_Object E r bucket key ;;
      update_self (set__obj o))%py
     (fun _ s' => owns old s') s.
Proof.
  intros Ho. apply wp_bind, wp_getattr.
  destruct (_session (fst s)) as [x|]; [|assumption].
  apply wp_bind.
  eapply wp_mono; [now apply session_resource_enters|].
  intros [e|r] s' (Ho' & Hcl & Hacq); [assumption|].
  destruct (Hacq r eq_refl) as (Hn & c & Hc & He).
  destruct s' as [h' [hp' t']]. cbn [fst snd heap] in *.
  unfold resource_Object. wp_run;
    try (eapply owns_update; [owns_trace_solve|reflexivity|]; now left).
  eapply owns_update; [owns_trace_solve|reflexivity|].
  intros r' [(b & k & [= <- _ _])|Hr]%clients_set__obj.
  - right. split; [assumption|]. cbn [snd heap]. eauto.
  - now left.
Qed.

Lemma S3FileSystem_aenter_owns (s : St) :
  owns old s -> wp (S3FileSystem_aenter E) (fun _ s' => owns old s') s.
Proof.
  destruct s as [h [hp t]]. intros Ho. unfold S3FileSystem_aenter.
  apply wp_bind, wp_self. apply wp_bind, wp_lift.
  destruct (Url.urlparse _ _) as [e|parsed]; [assumption|].
  destruct (negb (aioboto3 E)); [assumption|].
  unfold aioboto3_Session.
  apply wp_bind, wp_alloc. apply wp_bind, wp_update_self.
  apply S3_connect_owns. cbn [fst snd heap trace].
  eapply owns_update;
    [apply owns_alloc_plain; [exact Ho|reflexivity]|reflexivity|now left].
Qed.

Lemma AtlasS3FileSystem_aenter_owns (s : St) :
  owns old s -> wp (AtlasS3FileSystem_aenter E) (fun _ s' => owns old s') s.
Proof.
  destruct s as [h w]. intros Ho. unfold AtlasS3FileSystem_aenter.
  apply wp_bind, wp_self. apply wp_bind, wp_lift.
  destruct (Url.urlparse _ _) as [e|parsed]; [assumption|].
  apply wp_bind, wp_update_self.
  apply S3_connect_owns. cbn [fst snd].
  eapply owns_update; [eassumption|reflexivity|now left].
Qed.

Lemma aenter_owns (s : St) :
  owns old s -> wp (aenter E) (fun _ s' => owns old s') s.
Proof.
  intros Ho. unfold aenter. apply wp_bind, wp_self.
  destruct (class_ (fst s));
    [ apply LocalFileSystem_aenter_owns | apply HttpFileSystem_aenter_owns
    | apply S3FileSystem_aenter_owns | apply AtlasS3FileSystem_aenter_owns
    | apply GcsFileSystem_aenter_owns ]; assumption.
Qed.

Lemma get_keeps offset length : keeps old (get E offset length).
Proof.
  intros s Ho. unfold get. apply wp_bind, wp_self.
  destruct (class_ (fst s));
    [ apply LocalFileSystem_get_keeps | apply HttpFileSystem_get_keeps
    | apply S3FileSystem_get_keeps | apply S3FileSystem_get_keeps
    | apply GcsFileSystem_get_keeps ]; assumption.
Qed.

(** Whatever the caller does, and however it ends, the handle keeps
    what it owns. *)
Lemma perform_owns (o : op) (s : St) :
  owns old s -> owns old (snd (perform E o s)).
Proof.
  intros Ho. destruct o as [|offset length|]; cbn [perform].
  - exact (aenter_owns s Ho).
  - change (wp (_ <- get E offset length ;; ret tt)%py
               (fun _ s' => owns old s') s).
    apply wp_bind. eapply wp_mono; [now apply get_keeps|].
    now intros [e|b] s' [Ho' _].
  - now apply owns_aexit.
Qed.

Lemma after_app (ops ops' : list op) (s : St) :
  after E (ops ++ ops') s = after E ops' (after E ops s).
Proof. unfold after. apply fold_left_app. Qed.

Lemma after_owns (ops : list op) (s : St) :
  owns old s -> owns old (after E ops s).
Proof.
  revert s. induction ops as [|o ops IH]; intros s Ho; [exact Ho|].
  cbn [after fold_left]. apply IH. now apply perform_owns.
Qed.

End Steps.

(** ** The object a handle resolves when it is opened *)

Ltac absurd_branch :=
  repeat match goal with
         | H : context [<[?i := _]> _ !! ?i] |- _ => rewrite lookup_insert_eq in H
         | H : forall t r, s3_connect _ t r = None, H' : s3_connect _ _ _ = Some _ |- _ =>
             rewrite H in H'
         | H : forall t b k, s3_object _ t b k = None, H' : s3_object _ _ _ _ = Some _ |- _ =>
             rewrite H in H'
         | H : forall t, gcs_connect _ t = None, H' : gcs_connect _ _ = Some _ |- _ =>
             rewrite H in H'
         | H : negb ?b = true, H' : ?b = true |- _ => rewrite H' in H
         end;
  simplify_eq; try discriminate.

Section Resolve.

Variable E : Env.
Variables (h : FileSystem) (w : World) (parsed : Url.ParseResult).
Hypothesis Hparsed : Url.urlparse (check_netloc E) (filepath h) = inr parsed.

Lemma S3FileSystem_aenter_resolves :
  wp (S3FileSystem_aenter E)
     (fun res s' =>
        res = inr tt ->
        exists r, _obj (fst s')
                  = Some (ObjectRef r (Url.netloc parsed)
                                    (PyStr.strip slash (Url.path parsed))))
     (h, w).
Proof.
  unfold S3FileSystem_aenter, aioboto3_Session, enter_async_context,
    session_resource, resource_Object.
  apply wp_bind, wp_self. apply wp_bind, wp_lift. cbn [fst]. rewrite Hparsed.
  wp_run; try discriminate; intros _; eauto.
Qed.

Lemma S3FileSystem_aenter_succeeds :
  aioboto3 E = true ->
  (forall t r, s3_connect E t r = None) ->
  (forall t b k, s3_object E t b k = None) ->
  fst (S3FileSystem_aenter E (h, w)) = inr tt.
Proof.
  intros Hdep Hconn Hobj.
  change (wp (S3FileSystem_aenter E) (fun res _ => res = inr tt) (h, w)).
  unfold S3FileSystem_aenter, aioboto3_Session, enter_async_context,
    session_resource, resource_Object.
  apply wp_bind, wp_self. apply wp_bind, wp_lift. cbn [fst]. rewrite Hparsed.
  wp_run; try reflexivity; exfalso; absurd_branch.
Qed.

Lemma AtlasS3FileSystem_aenter_resolves :
  wp (AtlasS3FileSystem_aenter E)
     (fun res s' =>
        res = inr tt ->
        _session (fst s') = Some (AWS_S3_ASYNC_CLIENT E)
        /\ exists r, _obj (fst s')
                     = Some (ObjectRef r (IMAGE_BUCKET_NAME E) (Url.path parsed)))
     (h, w).
Proof.
  unfold AtlasS3FileSystem_aenter, enter_async_context,
    session_resource, resource_Object.
  apply wp_bind, wp_self. apply wp_bind, wp_lift. cbn [fst]. rewrite Hparsed.
  wp_run; try discriminate; intros _; eauto.
Qed.

Lemma AtlasS3FileSystem_aenter_succeeds (c : cell) :
  heap w !! AWS_S3_ASYNC_CLIENT E = Some c -> obj c = Session ->
  (forall t r, s3_connect E t r = None) ->
  (forall t b k, s3_object E t b k = None) ->
  fst (AtlasS3FileSystem_aenter E (h, w)) = inr tt.
Proof.
  intros Hc Hs Hconn Hobj.
  change (wp (AtlasS3FileSystem_aenter E) (fun res _ => res = inr tt) (h, w)).
  unfold AtlasS3FileSystem_aenter, enter_async_context,
    session_resource, resource_Object.
  apply wp_bind, wp_self. apply wp_bind, wp_lift. cbn [fst]. rewrite Hparsed.
  wp_run; try reflexivity; exfalso; absurd_branch; congruence.
Qed.

Lemma GcsFileSystem_aenter_resolves :
  wp (GcsFileSystem_aenter E)
     (fun res s' =>
        res = inr tt ->
        _bucket (fst s') = Some (Url.netloc parsed)
        /\ _obj (fst s')
           = Some (ObjectName (PyStr.strip slash (Url.path parsed))))
     (h, w).
Proof.
  unfold GcsFileSystem_aenter, enter_async_context, GcpStorage_new.
  apply wp_bind, wp_self. apply wp_bind, wp_lift. cbn [fst]. rewrite Hparsed.
  wp_run; try discriminate; intros _; eauto.
Qed.

Lemma GcsFileSystem_aenter_succeeds :
  GcpStorage E = true ->
  (forall t, gcs_connect E t = None) ->
  fst (GcsFileSystem_aenter E (h, w)) = inr tt.
Proof.
  intros Hdep Hconn.
  change (wp (GcsFileSystem_aenter E) (fun res _ => res = inr tt) (h, w)).
  unfold GcsFileSystem_aenter, enter_async_context, GcpStorage_new.
  apply wp_bind, wp_self. apply wp_bind, wp_lift. cbn [fst]. rewrite Hparsed.
  wp_run; try reflexivity; exfalso; absurd_branch; congruence.
Qed.

End Resolve.

(** C8 (as the code has it). Opened on a location that parses, the
    generic object-store backend and the cloud-bucket backend take the
    network location of the URI as the bucket and [path.strip("/")] as
    the object key: the path without the separators at its start and at
    its end, those at the end included.  Both opens succeed when the
    client library is imported and the store answers. *)
Theorem bucket_and_key_of_location (E : Env) (h : FileSystem) (w : World)
        (parsed : Url.ParseResult) :
  Url.urlparse (check_netloc E) (filepath h) = inr parsed ->
  let key := PyStr.strip slash (Url.path parsed) in
  let s3 := S3FileSystem_aenter E (h, w) in
  let gs := GcsFileSystem_aenter E (h, w) in
  (fst s3 = inr tt ->
   exists r, _obj (fst (snd s3)) = Some (ObjectRef r (Url.netloc parsed) key))
  /\ (fst gs = inr tt ->
      _bucket (fst (snd gs)) = Some (Url.netloc parsed)
      /\ _obj (fst (snd gs)) = Some (ObjectName key))
  /\ (aioboto3 E = true -> (forall t r, s3_connect E t r = None) ->
      (forall t b k, s3_object E t b k = None) -> fst s3 = inr tt)
  /\ (GcpStorage E = true -> (forall t, gcs_connect E t = None) ->
      fst gs = inr tt)
  /\ (exists a b, Url.path parsed = a +:+ key +:+ b
                  /\ PyStr.forallb slash a = true /\ PyStr.forallb slash b = true)
  /\ (forall c, PyStr.first_chr key = Some c -> slash c = false)
  /\ (forall c, PyStr.last_chr key = Some c -> slash c = false).
Proof.
  intros Hp key s3 gs. subst key s3 gs.
  split; [exact (S3FileSystem_aenter_resolves E h w parsed Hp)|].
  split; [exact (GcsFileSystem_aenter_resolves E h w parsed Hp)|].
  split; [now apply S3FileSystem_aenter_succeeds with (parsed := parsed)|].
  split; [now apply GcsFileSystem_aenter_succeeds with (parsed := parsed)|].
  apply strip_spec.
Qed.

Lemma bucket_and_key_of_location_witness :
  let h := new_instance S3FileSystem "s3://bucket/key.ext" false in
  Url.urlparse (check_netloc (sample_env true)) (filepath h)
  = inr (Url.plain "s3" "bucket" "/key.ext")
  /\ exists r, _obj (fst (snd (S3FileSystem_aenter (sample_env true) (h, sample_world))))
               = Some (ObjectRef r "bucket" "key.ext").
Proof.
  intros h. split; [reflexivity|].
  destruct (bucket_and_key_of_location (sample_env true) h sample_world _ eq_refl)
    as (Hs3 & _ & Hok & _).
  apply Hs3, Hok; reflexivity.
Defined.

(** C8 as it is stated fails: over [s3://bucket/dir/] the key is [dir],
    while the path without its leading separator is [dir/]. *)
Lemma key_loses_trailing_separator :
  let h := new_instance S3FileSystem "s3://bucket/dir/" false in
  let s := S3FileSystem_aenter (sample_env true) (h, sample_world) in
  Url.urlparse (check_netloc (sample_env true)) (filepath h)
  = inr (Url.plain "s3" "bucket" "/dir/")
  /\ fst s = inr tt
  /\ _obj (fst (snd s)) = Some (ObjectRef 2%nat "bucket" "dir")
  /\ strip_leading_separator "/dir/" = "dir/"%string
  /\ _obj (fst (snd s))
     <> Some (ObjectRef 2%nat "bucket" (strip_leading_separator "/dir/")).
Proof.
  cbv zeta. split; [reflexivity|]. split; [reflexivity|].
  split; [reflexivity|]. split; [reflexivity|].
  vm_compute. discriminate.
Qed.

(** C10. Opened on a location that parses, the specialised (atlas)
    backend borrows the session of [settings] and takes the configured
    bucket and the path of the URI as it is, leading separator included,
    where the generic backend takes the network location and the path
    stripped of separators at both ends: for [atlas://host/key.ext] the
    keys are [/key.ext] and [key.ext]. *)
Theorem atlas_key_is_raw_path (E : Env) (h : FileSystem) (w : World)
        (parsed : Url.ParseResult) :
  Url.urlparse (check_netloc E) (filepath h) = inr parsed ->
  let atlas := AtlasS3FileSystem_aenter E (h, w) in
  let s3 := S3FileSystem_aenter E (h, w) in
  (fst atlas = inr tt ->
   _session (fst (snd atlas)) = Some (AWS_S3_ASYNC_CLIENT E)
   /\ exists r, _obj (fst (snd atlas))
                = Some (ObjectRef r (IMAGE_BUCKET_NAME E) (Url.path parsed)))
  /\ (fst s3 = inr tt ->
      exists r, _obj (fst (snd s3))
                = Some (ObjectRef r (Url.netloc parsed)
                                  (PyStr.strip slash (Url.path parsed))))
  /\ (forall c, heap w !! AWS_S3_ASYNC_CLIENT E = Some c -> obj c = Session ->
                (forall t r, s3_connect E t r = None) ->
                (forall t b k, s3_object E t b k = None) ->
                fst atlas = inr tt)
  /\ (filepath h = "atlas://host/key.ext"%string ->
      Url.path parsed = "/key.ext"%string
      /\ PyStr.strip slash (Url.path parsed) = "key.ext"%string).
Proof.
  intros Hp atlas s3. subst atlas s3.
  split; [exact (AtlasS3FileSystem_aenter_resolves E h w parsed Hp)|].
  split; [exact (S3FileSystem_aenter_resolves E h w parsed Hp)|].
  split; [intros c; now apply AtlasS3FileSystem_aenter_succeeds with (parsed := parsed)|].
  intros Hf. rewrite Hf in Hp. injection Hp as <-. split; reflexivity.
Qed.

Lemma atlas_key_is_raw_path_witness :
  let h := new_instance AtlasS3FileSystem "atlas://host/key.ext" false in
  Url.urlparse (check_netloc (sample_env true)) (filepath h)
  = inr (Url.plain "atlas" "host" "/key.ext")
  /\ (exists r,
        _obj (fst (snd (AtlasS3FileSystem_aenter (sample_env true) (h, sample_world))))
        = Some (ObjectRef r "images" "/key.ext"))
  /\ (exists r,
        _obj (fst (snd (S3FileSystem_aenter (sample_env true) (h, sample_world))))
        = Some (ObjectRef r "host" "key.ext")).
Proof.
  intros h. split; [reflexivity|].
  destruct (atlas_key_is_raw_path (sample_env true) h sample_world _ eq_refl)
    as (Hatlas & Hs3 & Hok & _).
  split.
  - apply Hatlas. apply (Hok {| obj := Session; closed := false |}); reflexivity.
  - apply Hs3. reflexivity.
Defined.

(** ** The life cycle *)

Section Lifecycle.

Variable E : Env.







(** After a close, nothing is registered, and every object entered
    since the handle was created is closed. *)
Lemma closed_after_close (old : gmap rid cell) (s : St) :
  owns old s ->
  let s' := snd (aexit E s) in
  ctx (fst s') = nil
  /\ forall r c, heap (snd s') !! r = Some c -> old !! r = None ->
                 entered (obj c) = true -> closed c = true.
Proof.
  intros Ho s'. subst s'. split.
  - now rewrite aexit_state.
  - intros r c Hr Hn He.
    pose proof (owns_aexit E old s Ho) as Ho'.
    destruct (owns_tracked _ _ Ho' r c Hr Hn He) as [?|Hin]; [assumption|].
    rewrite aexit_state in Hin. now apply elem_of_nil in Hin.
Qed.

End Lifecycle.

Lemma create_from_filepath_by_scheme_witness :
  Url.urlparse (check_netloc (sample_env true)) "ftp://host/path"
  = inr (Url.plain "ftp" "host" "/path")
  /\ (exists msg,
        create_from_filepath (sample_env true) "ftp://host/path" ∅
        = inl (ValueError msg)
        /\ PyStr.occurs "ftp" msg = true)
  /\ (exists h,
        create_from_filepath (sample_env true) "gs://bucket/key.ext" ∅ = inr h).
Proof.
  split; [reflexivity|]. split.
  - destruct (proj2 (create_from_filepath_by_scheme
                       (sample_env true) "ftp://host/path" ∅) _ eq_refl)
      as [_ H].
    exact (proj2 (H eq_refl)).
  - destruct (proj2 (create_from_filepath_by_scheme
                       (sample_env true) "gs://bucket/key.ext" ∅) _ eq_refl)
      as [H _].
    destruct (H GcsFileSystem eq_refl) as (_ & _ & Hex).
    exact (Hex eq_refl eq_refl).
Defined.

(** C6. [__aexit__] can be called in any state of a handle, whatever
    the earlier operations did: it leaves nothing registered, it has
    closed every object whose exit was registered, it raises only what
    the exit of such an object raised, and called again it returns
    without changing anything.  Hence after any sequence of opens, reads
    and closes that ends with a close, whichever of them raised, every
    object entered since the handle was created is closed. *)
Theorem aexit_releases_all (E : Env) :
  (forall s : St,
     let s' := snd (aexit E s) in
     ctx (fst s') = nil
     /\ (forall r c, r ∈ ctx (fst s) -> heap (snd s) !! r = Some c ->
                     heap (snd s') !! r = Some (close_cell c))
     /\ (forall e, fst (aexit E s) = inl e ->
                   exists t r, r ∈ ctx (fst s) /\ on_exit E t r = Some e)
     /\ aexit E s' = (inr tt, s'))
  /\ (forall c path payer w ops,
        let s := after E (ops ++ Close :: nil) (new_instance c path payer, w) in
        ctx (fst s) = nil
        /\ forall r x, heap (snd s) !! r = Some x -> heap w !! r = None ->
                       entered (obj x) = true -> closed x = true).
Proof.
  split.
  - intros s s'. subst s'.
    assert (ctx (fst (snd (aexit E s))) = nil) as Hnil by now rewrite aexit_state.
    split; [exact Hnil|]. split; [|split].
    + intros r c Hin Hc. rewrite aexit_heap.
      destruct (decide (r ∈ ctx (fst s))); [|contradiction]. now rewrite Hc.
    + apply aexit_raises.
    + destruct (snd (aexit E s)) as [h' w']. now apply aexit_again.
  - intros c path payer w ops s. subst s. rewrite after_app.
    apply (closed_after_close E (heap w)).
    apply after_owns. now apply owns_new.
Qed.

Lemma aexit_releases_all_witness :
  let h := new_instance HttpFileSystem "http://host/a.pmtiles" false in
  let s := after (sample_env true) (Open :: Get 0 9 :: Close :: nil) (h, sample_world) in
  fst (get (sample_env true) 0 9 (snd (aenter (sample_env true) (h, sample_world))))
  = inl (HTTPStatusError 404)
  /\ ctx (fst s) = nil
  /\ heap (snd s) !! 1%nat = Some {| obj := HttpClient; closed := true |}
  /\ aexit (sample_env true) s = (inr tt, s).
Proof.
  intros h s. split; [reflexivity|].
  destruct (aexit_releases_all (sample_env true)) as [Hany Hseq].
  split; [exact (proj1 (Hseq HttpFileSystem "http://host/a.pmtiles"%string false
                          sample_world (Open :: Get 0 9 :: nil)))|].
  split; [reflexivity|].
  exact (proj2 (proj2 (proj2
           (Hany (after (sample_env true) (Open :: Get 0 9 :: nil) (h, sample_world)))))).
Defined.

(** C9. Whatever is done with a specialised (atlas) handle, the
    shared session of [settings] stays as it was: its exit is never
    registered with the handle, and a close changes only the objects
    whose exit is registered, all of which were created after the
    handle; every object that existed before the handle is left
    untouched. *)
Theorem atlas_leaves_shared_session (E : Env) (path : string) (payer : bool)
        (w : World) (ops : list op) (session : cell) :
  heap w !! AWS_S3_ASYNC_CLIENT E = Some session ->
  let s := after E ops (new_instance AtlasS3FileSystem path payer, w) in
  heap (snd s) !! AWS_S3_ASYNC_CLIENT E = Some session
  /\ (AWS_S3_ASYNC_CLIENT E ∉ ctx (fst s))
  /\ (forall r, r ∈ ctx (fst s) -> heap w !! r = None)
  /\ (forall r, r ∉ ctx (fst s) ->
                heap (snd (snd (aexit E s))) !! r = heap (snd s) !! r)
  /\ (forall r x, heap w !! r = Some x -> heap (snd s) !! r = Some x).
Proof.
  intros Hs s.
  assert (owns (heap w) s) as Ho by (apply after_owns; now apply owns_new).
  destruct Ho as [Hframe Hctx _ _].
  split; [now apply Hframe|]. split; [|split; [exact Hctx|split; [|exact Hframe]]].
  - intros Hin. apply Hctx in Hin. congruence.
  - intros r Hr. rewrite aexit_heap.
    destruct (decide (r ∈ ctx (fst s))); [contradiction|reflexivity].
Qed.

Lemma atlas_leaves_shared_session_witness :
  let E := sample_env true in
  let h := new_instance AtlasS3FileSystem "atlas://host/key.ext" false in
  let s := after E (Open :: Get 0 9 :: Close :: nil) (h, sample_world) in
  heap sample_world !! AWS_S3_ASYNC_CLIENT E = Some {| obj := Session; closed := false |}
  /\ heap (snd s) !! AWS_S3_ASYNC_CLIENT E = Some {| obj := Session; closed := false |}
  /\ heap (snd s) !! 1%nat = Some {| obj := S3Resource 0%nat; closed := true |}.
Proof.
  intros E h s. split; [reflexivity|]. split; [|reflexivity].
  exact (proj1 (atlas_leaves_shared_session E "atlas://host/key.ext"%string false
                  sample_world (Open :: Get 0 9 :: Close :: nil) _ eq_refl)).
Defined.

(** * Further properties of the module *)


(** ** The state a successful open leaves *)


Section OpenState.

Variable E : Env.
Variables (h : FileSystem) (w : World).

Lemma local_open_eq :
  class_ h = LocalFileSystem ->
  let f := fresh (dom (heap w)) in
  aenter E (h, w)
  = match os_open E (trace w) (filepath h) with
    | inl e =>
        (inl e, (h, {| heap := heap w;
                       trace := trace w ++ FileOpen (filepath h) :: nil |}))
    | inr data =>
        (inr tt,
         (set_file f (set_ctx (f :: ctx h) h),
          {| heap := <[f := {| obj := File data 0; closed := false |}]> (heap w);
             trace := trace w ++ FileOpen (filepath h) :: nil |}))
    end.
Proof.
  intros Hcls f. subst f.
  unfold aenter, LocalFileSystem_aenter, enter_async_context, aiofiles_open.
  unfold bind, self, world, emit, lift, alloc, update_self, ret, raise.
  cbn [fst snd heap trace]. rewrite Hcls. cbn [fst snd heap trace].
  now destruct (os_open E (trace w) (filepath h)).
Qed.





End OpenState.

(** ** Open, then read *)

Lemma fresh_unused (hp : gmap rid cell) : hp !! fresh (dom hp) = None.
Proof. apply not_elem_of_dom, is_fresh. Qed.

Lemma fresh_unused_insert (hp : gmap rid cell) (i : rid) (c : cell) :
  hp !! fresh (dom (<[i := c]> hp)) = None
  /\ fresh (dom (<[i := c]> hp)) <> i.
Proof.
  pose proof (fresh_unused (<[i := c]> hp)) as H.
  apply lookup_insert_None in H as [H Hne]. split; [assumption|congruence].
Qed.









(** X5. A local handle is opened on the handle's location taken as it
    is; when the file can be opened the open succeeds, and [get] then
    returns the bytes of that file at the positions [offset] to
    [offset + length], for non-negative arguments within the limits of
    the platform.  This is so in any state of the handle, also after
    earlier opens and closes. *)
Theorem LocalFileSystem_open_then_get (E : Env) (h : FileSystem) (w : World)
        (data : bytes) (offset length : Z) :
  class_ h = LocalFileSystem ->
  os_open E (trace w) (filepath h) = inr data ->
  0 <= offset -> 0 <= length ->
  in_limits E offset length = true ->
  let s1 := snd (aenter E (h, w)) in
  fst (aenter E (h, w)) = inr tt
  /\ trace (snd s1) = trace w ++ FileOpen (filepath h) :: nil
  /\ fst (get E offset length s1)
     = inr (bytes_between data offset (offset + length)).
Proof.
  intros Hcls Hopen Ho Hl Hlim s1. subst s1.
  rewrite (local_open_eq E h w Hcls). rewrite Hopen. cbn [fst snd heap trace].
  split; [reflexivity|]. split; [reflexivity|].
  erewrite local_get_eq with (data := data);
    [reflexivity|exact Hcls|reflexivity| |assumption|assumption|assumption].
  apply lookup_insert_eq.
Qed.

Lemma LocalFileSystem_open_then_get_witness :
  let E := sample_env true in
  let h := new_instance LocalFileSystem "/data/a.pmtiles" false in
  let s := after E (Open :: Close :: nil) (h, sample_world) in
  os_open E (trace (snd s)) (filepath (fst s)) = inr sample_data
  /\ in_limits E 98 4 = true
  /\ fst (get E 98 4 (snd (aenter E s))) = inr (Byte.x62 :: Byte.x63 :: nil).
Proof.
  intros E h s. split; [reflexivity|]. split; [reflexivity|].
  destruct (LocalFileSystem_open_then_get E (fst s) (snd s) sample_data 98 4)
    as (_ & _ & Hget); [reflexivity|reflexivity|lia|lia|reflexivity|].
  exact Hget.
Defined.

(** ** Opens that fail *)




(** X8. The three remote object classes parse the location when they
    are opened: on a location [urlparse] rejects, the open raises that
    error before anything is connected, entered or assigned. *)
Theorem open_rejects_unparsable_location (E : Env) (h : FileSystem) (w : World)
        (e : exn) :
  class_ h = S3FileSystem \/ class_ h = AtlasS3FileSystem
  \/ class_ h = GcsFileSystem ->
  Url.urlparse (check_netloc E) (filepath h) = inl e ->
  aenter E (h, w) = (inl e, (h, w)).
Proof.
  intros Hcls Hp.
  unfold aenter, S3FileSystem_aenter, AtlasS3FileSystem_aenter,
    GcsFileSystem_aenter, bind, self, lift.
  cbn [fst snd]. destruct Hcls as [-> | [-> | ->]]; cbn [fst snd];
    now rewrite Hp.
Qed.

Lemma open_rejects_unparsable_location_witness :
  let h := new_instance GcsFileSystem "gs://[bucket/key.ext" false in
  Url.urlparse (check_netloc (sample_env true)) (filepath h) = inl (ValueError "Invalid IPv6 URL")
  /\ aenter (sample_env true) (h, sample_world)
     = (inl (ValueError "Invalid IPv6 URL"), (h, sample_world)).
Proof.
  intros h. split; [reflexivity|].
  apply open_rejects_unparsable_location; [right; right|]; reflexivity.
Defined.

(** ** The selector and the handle it builds *)

(** X9. The handle the selector builds for a [file] location, or for
    one without scheme, opens the location string itself: the path the
    file system is asked for is the whole argument of the selector,
    scheme and slashes included, not the path component of the URI. *)
Theorem local_handle_opens_location (E : Env) (location : string)
        (parsed : Url.ParseResult) (h : FileSystem) (w : World) :
  Url.urlparse (check_netloc E) location = inr parsed ->
  Url.scheme parsed = "file"%string \/ Url.scheme parsed = EmptyString ->
  create_from_filepath E location ∅ = inr h ->
  class_ h = LocalFileSystem
  /\ trace (snd (snd (aenter E (h, w)))) = trace w ++ FileOpen location :: nil
  /\ fst (aenter E (h, w))
     = match os_open E (trace w) location with
       | inl e => inl e
       | inr _ => inr tt
       end.
Proof.
  intros Hp Hs Hc.
  rewrite (create_from_filepath_table E location ∅ parsed Hp) in Hc.
  assert (backend_of_scheme (Url.scheme parsed) = Some LocalFileSystem) as Hb
      by now destruct Hs as [-> | ->].
  rewrite Hb in Hc. apply instantiate_class in Hc as (Hcls & Hpath & _).
  split; [exact Hcls|].
  rewrite (local_open_eq E h w Hcls). rewrite Hpath.
  now destruct (os_open E (trace w) location).
Qed.

Lemma local_handle_opens_location_witness :
  let E := sample_env true in
  exists h,
    create_from_filepath E "file:///data/a.pmtiles" ∅ = inr h
    /\ os_open E nil "/data/a.pmtiles" = inr sample_data
    /\ fst (aenter E (h, sample_world))
       = inl (OSError "No such file or directory").
Proof.
  intros E. eexists. split; [reflexivity|]. split; [reflexivity|].
  destruct (local_handle_opens_location E "file:///data/a.pmtiles"
              (Url.plain "file" EmptyString "/data/a.pmtiles")
              (new_instance LocalFileSystem "file:///data/a.pmtiles" false)
              sample_world eq_refl (or_introl eq_refl) eq_refl)
    as (_ & _ & Hopen).
  rewrite Hopen. reflexivity.
Defined.

Lemma only_request_payer (kw : kwargs) (k : string) :
  delete "request_payer"%string kw = ∅ -> is_Some (kw !! k) ->
  k = "request_payer"%string.
Proof.
  unfold kwargs in *.
  intros Hd Hk. destruct (decide (k = "request_payer"%string)) as [|Hne];
    [assumption|].
  assert (delete "request_payer"%string kw !! k = kw !! k) as Heq
      by (apply lookup_delete_ne; congruence).
  rewrite Hd in Heq. rewrite <- Heq in Hk.
  destruct Hk as [x Hx]. exfalso. revert Hx. apply lookup_empty_Some.
Qed.

Lemma no_option (k : string) : is_Some ((∅ : kwargs) !! k) -> False.
Proof. unfold kwargs. intros [x Hx]. revert Hx. apply lookup_empty_Some. Qed.

(** X10. The selector hands the caller's options to the class it
    picks, and a handle comes back only if the class takes them all:
    the one option there is, [request_payer], is taken by the two S3
    classes only, and the handle then carries its value ([False] when
    it is not given); with any other option, or with any option for
    another class, the selector raises instead. *)
Theorem create_from_filepath_options (E : Env) (location : string)
        (kw : kwargs) (h : FileSystem) :
  create_from_filepath E location kw = inr h ->
  request_payer h = default false (kw !! "request_payer"%string)
  /\ (forall k, is_Some (kw !! k) ->
        k = "request_payer"%string
        /\ (class_ h = S3FileSystem \/ class_ h = AtlasS3FileSystem)).
Proof.
  unfold create_from_filepath.
  destruct (Url.urlparse (check_netloc E) location) as [e|parsed]; [discriminate|].
  cbv zeta.
  assert (forall c, S3_init E c location kw = inr h ->
            request_payer h = default false (kw !! "request_payer"%string)
            /\ (forall k, is_Some (kw !! k) -> k = "request_payer"%string)
            /\ class_ h = c) as Hs3.
  { intros c. unfold S3_init, S3FileSystem_post_init.
    case_decide as Hd; [|discriminate].
    destruct (aioboto3 E); [|discriminate]. intros [= <-].
    split; [reflexivity|]. split; [|reflexivity].
    intros k. now apply only_request_payer. }
  assert (forall c : cls,
            (if decide (kw = ∅) then inr (new_instance c location false)
             else inl (TypeError "__init__() got an unexpected keyword argument"))
            = inr h ->
            request_payer h = default false (kw !! "request_payer"%string)
            /\ (forall k, is_Some (kw !! k) -> False)) as Hplain.
  { intros c. case_decide as Hd; [|discriminate]. intros [= <-]. subst kw.
    split; [reflexivity|]. intros k Hk. now apply no_option in Hk. }
  repeat match goal with
         | |- (if ?b then _ else _) = _ -> _ => destruct b
         end;
    try discriminate;
    unfold HttpFileSystem_new, LocalFileSystem_new, S3FileSystem_new,
      AtlasS3FileSystem_new, GcsFileSystem_new, GcsFileSystem_post_init;
    intros Hc;
    try (apply Hs3 in Hc as (Hr & Hk & Hcls); split; [exact Hr|];
         intros k Hin; split; [now apply Hk|]; rewrite Hcls; tauto);
    try (apply Hplain in Hc as (Hr & Hk); split; [exact Hr|];
         intros k Hin; now apply Hk in Hin).
  (* the cloud-bucket class checks its import after the options *)
  case_decide as Hd; [|discriminate]. destruct (GcpStorage E); [|discriminate].
  injection Hc as <-. subst kw. split; [reflexivity|].
  intros k Hk. now apply no_option in Hk.
Qed.

Lemma create_from_filepath_options_witness :
  let E := sample_env true in
  exists h,
    create_from_filepath E "s3://bucket/key.ext"
      {[ "request_payer"%string := true ]} = inr h
    /\ request_payer h = true.
Proof.
  intros E. eexists. split; [reflexivity|].
  exact (proj1 (create_from_filepath_options E "s3://bucket/key.ext"
                  {[ "request_payer"%string := true ]} _ eq_refl)).
Defined.

(** ** What [get] leaves alone *)

Lemma same_objects_refl (hp : gmap rid cell) : same_objects hp hp.
Proof. now intros r. Qed.

Lemma same_objects_seek (hp : gmap rid cell) (f : rid) (c : cell)
      (data : bytes) (pos pos' : Z) :
  hp !! f = Some c -> obj c = File data pos -> closed c = false ->
  same_objects hp (<[f := {| obj := File data pos'; closed := false |}]> hp).
Proof.
  intros Hf Ho Hc r. destruct (decide (f = r)) as [<-|Hne].
  - rewrite lookup_insert_eq, Hf. cbn. unfold settled. rewrite Ho, Hc. reflexivity.
  - now rewrite lookup_insert_ne.
Qed.

Ltac unchanged_solve :=
  split; [reflexivity|]; split;
  [ first [ apply same_objects_refl
          | eapply same_objects_seek; eassumption ]
  | first [ exists nil; split; [symmetry; apply app_nil_r|reflexivity]
          | eexists; split; [rewrite <- ?app_assoc; reflexivity|reflexivity] ] ].

Lemma get_unchanged_wp (E : Env) (offset length : Z) (h : FileSystem)
      (hp : gmap rid cell) (t : list event) :
  wp (get E offset length)
     (fun _ s' =>
        fst s' = h
        /\ same_objects hp (heap (snd s'))
        /\ exists evs, trace (snd s') = t ++ evs
                       /\ List.forallb is_request evs = true)
     (h, {| heap := hp; trace := t |}).
Proof.
  unfold get, LocalFileSystem_get, HttpFileSystem_get, S3FileSystem_get,
    GcsFileSystem_get, file_seek, file_read, httpx_get, object_get,
    storage_download, raise_for_status.
  wp_run; simplify_eq;
    repeat match goal with
           | H : <[?i := ?x]> _ !! ?i = Some ?c |- _ =>
               rewrite lookup_insert_eq in H; simplify_eq; cbn in *
           end;
    simplify_eq; rewrite ?insert_insert_eq; unchanged_solve.
Qed.

(** X11. In every state and for every class, [get] leaves the handle
    exactly as it is and neither creates, closes nor replaces an
    object: all it may move is the position in the handle's file, and
    all it adds to what the outside sees are positioning, reading and
    request events. *)
Theorem get_changes_nothing (E : Env) (offset length : Z) (s : St) :
  let s' := snd (get E offset length s) in
  fst s' = fst s
  /\ same_objects (heap (snd s)) (heap (snd s'))
  /\ exists evs, trace (snd s') = trace (snd s) ++ evs
                 /\ List.forallb is_request evs = true.
Proof.
  destruct s as [h [hp t]]. exact (get_unchanged_wp E offset length h hp t).
Qed.

Lemma settled_file (c : cell) (data : bytes) :
  settled c = {| obj := File data 0; closed := false |} ->
  exists pos, c = {| obj := File data pos; closed := false |}.
Proof.
  destruct c as [o cl]. unfold settled. cbn.
  destruct o; intros [= <- <-] || intros [= <-]; eauto; discriminate.
Qed.

(** X6. Successive reads of a local handle do not depend on one
    another: after any read, whether it returned or raised, a second
    read with non-negative arguments within the limits of the platform
    returns the bytes at its own positions, wherever the first one left
    the file. *)
Theorem LocalFileSystem_get_twice (E : Env) (h : FileSystem) (w : World)
        (f : rid) (data : bytes) (pos offset1 length1 offset2 length2 : Z) :
  class_ h = LocalFileSystem ->
  file h = Some f ->
  heap w !! f = Some {| obj := File data pos; closed := false |} ->
  0 <= offset2 -> 0 <= length2 ->
  in_limits E offset2 length2 = true ->
  fst (get E offset2 length2 (snd (get E offset1 length1 (h, w))))
  = inr (bytes_between data offset2 (offset2 + length2)).
Proof.
  intros Hcls Hf Hc Ho Hl Hlim. destruct w as [hp t]. cbn [heap] in Hc.
  pose proof (get_unchanged_wp E offset1 length1 h hp t) as (Hh & Hsame & _).
  destruct (snd (get E offset1 length1 (h, {| heap := hp; trace := t |})))
    as [h' w'] eqn:Hs.
  cbn [fst snd] in Hh, Hsame. subst h'.
  specialize (Hsame f). rewrite Hc in Hsame. cbn in Hsame.
  destruct (heap w' !! f) as [c'|] eqn:Hc'; [|discriminate].
  injection Hsame as Hsettled.
  apply settled_file in Hsettled as [pos' ->].
  now rewrite (local_get_eq E h w' offset2 length2 f data pos').
Qed.

Lemma LocalFileSystem_get_twice_witness :
  let E := sample_env true in
  let h := set_file 1%nat (new_instance LocalFileSystem "/data/a.pmtiles" false) in
  let w := {| heap := {[ 1%nat := {| obj := File sample_data 0; closed := false |} ]};
              trace := nil |} in
  fst (get E 95 20 (h, w))
  = inr (Byte.x5f :: Byte.x60 :: Byte.x61 :: Byte.x62 :: Byte.x63 :: nil)
  /\ in_limits E 10 4 = true
  /\ fst (get E 10 4 (snd (get E 95 20 (h, w))))
     = inr (Byte.x0a :: Byte.x0b :: Byte.x0c :: Byte.x0d :: Byte.x0e :: nil).
Proof.
  intros E h w. split; [reflexivity|]. split; [reflexivity|].
  exact (LocalFileSystem_get_twice E h w 1%nat sample_data 0 95 20 10 4
           eq_refl eq_refl eq_refl ltac:(lia) ltac:(lia) eq_refl).
Defined.

(** ** What an open registers *)

Lemma insert_fresh_frame (hp : gmap rid cell) (x : cell) (r : rid) (c : cell) :
  hp !! r = Some c -> <[fresh (dom hp) := x]> hp !! r = Some c.
Proof.
  intros Hr. rewrite lookup_insert_ne; [assumption|].
  intros <-. rewrite fresh_unused in Hr. discriminate.
Qed.

Ltac registers_solve :=
  split;
  [ intros ? ? ?; repeat apply insert_fresh_frame; assumption
  | split;
    [ first [ left; reflexivity
            | right; eexists; split; [reflexivity|];
              split;
              [ first [ apply fresh_unused
                      | eapply proj1, fresh_unused_insert ]
              | eexists; split; [apply lookup_insert_eq|];
                split; reflexivity ] ]
    | first [ discriminate | intros _; eexists; reflexivity ] ] ].

Lemma aenter_registers_wp (E : Env) (h : FileSystem) (hp : gmap rid cell)
      (t : list event) :
  wp (aenter E)
     (fun res s' =>
        (forall r c, hp !! r = Some c -> heap (snd s') !! r = Some c)
        /\ (ctx (fst s') = ctx h
            \/ exists r, ctx (fst s') = r :: ctx h
                         /\ hp !! r = None
                         /\ exists c, heap (snd s') !! r = Some c
                                      /\ closed c = false
                                      /\ entered (obj c) = true)
        /\ (res = inr tt -> exists r, ctx (fst s') = r :: ctx h))
     (h, {| heap := hp; trace := t |}).
Proof.
  unfold aenter, LocalFileSystem_aenter, HttpFileSystem_aenter,
    S3FileSystem_aenter, AtlasS3FileSystem_aenter, GcsFileSystem_aenter,
    enter_async_context, aiofiles_open, httpx_AsyncClient, aioboto3_Session,
    session_resource, resource_Object, GcpStorage_new.
  wp_run; registers_solve.
Qed.

(** X12. In every state and for every class, an open leaves the
    objects that exist as they are and the exits that are registered
    where they are; it registers at most one exit more, that of an
    object it has just created and entered, and exactly one when it
    returns. *)
Theorem aenter_registers_one (E : Env) (s : St) :
  let s' := snd (aenter E s) in
  (forall r c, heap (snd s) !! r = Some c -> heap (snd s') !! r = Some c)
  /\ (ctx (fst s') = ctx (fst s)
      \/ exists r, ctx (fst s') = r :: ctx (fst s)
                   /\ heap (snd s) !! r = None
                   /\ exists c, heap (snd s') !! r = Some c
                                /\ closed c = false
                                /\ entered (obj c) = true)
  /\ (fst (aenter E s) = inr tt ->
      exists r, ctx (fst s') = r :: ctx (fst s)).
Proof.
  destruct s as [h [hp t]]. exact (aenter_registers_wp E h hp t).
Qed.

(** ** What a close does *)

Lemma unwind_trace (E : Env) (callbacks : list rid) (pending : option exn)
      (w : World) :
  trace (snd (unwind E callbacks pending w)) = trace w ++ List.map Exit callbacks.
Proof.
  revert pending w. induction callbacks as [|a rest IH]; intros pending w.
  - cbn. now rewrite app_nil_r.
  - cbn [unwind]. unfold resource_aexit. rewrite IH. cbn [trace List.map].
    now rewrite <- app_assoc.
Qed.

(** X13. A close exits the registered objects one after the other, the
    one registered last first, each once, and does nothing else: it
    sends no request, and no object changes its kind or contents. *)
Theorem aexit_exits_in_order (E : Env) (s : St) :
  let s' := snd (aexit E s) in
  trace (snd s') = trace (snd s) ++ List.map Exit (ctx (fst s))
  /\ forall r, obj <$> heap (snd s') !! r = obj <$> heap (snd s) !! r.
Proof.
  intros s'. subst s'. split.
  - rewrite aexit_state. cbn [snd]. apply unwind_trace.
  - intros r. rewrite aexit_heap.
    destruct (decide (r ∈ ctx (fst s))); [|reflexivity].
    now destruct (heap (snd s) !! r).
Qed.

(** ** [get] outside an open *)






